(** * Token authentication of the v3 API (api/v3/auth.go)

    A shallow embedding of the authentication service: the request gate
    ([validate] and the two interceptors), the token issuers
    ([signAPIToken], [signChallengeToken]), the e-mail format check
    ([validateEmailFormat]) and the HTTP verification endpoint
    ([VerificationHandler]), together with the parts of the Go standard
    library and of jwt-go v3 that they call. *)

From Stdlib Require Import ZArith NArith String Ascii List Lia Bool.
From stdpp Require Import base option list gmap strings fin_maps pretty.

Local Open Scope string_scope.
Local Open Scope Z_scope.

(** ** Go's [strings] package

    Go strings are byte sequences; so are Rocq's [string]s. *)
Module strings.

(** [strings.HasPrefix(s, prefix)] *)
Definition HasPrefix (s prefix : string) : bool := String.prefix prefix s.

(** [strings.HasSuffix(s, suffix)]:
    [len(s) >= len(suffix) && s[len(s)-len(suffix):] == suffix] *)
Definition HasSuffix (s suffix : string) : bool :=
  (String.length suffix <=? String.length s)%nat
  && String.eqb
       (String.substring (String.length s - String.length suffix)
                         (String.length suffix) s)
       suffix.

(** [strings.ContainsRune(s, r)] for a rune [r] below 0x80, which is a
    single byte of [s]. *)
Fixpoint ContainsRune (s : string) (r : ascii) : bool :=
  match s with
  | EmptyString => false
  | String c s' => Ascii.eqb c r || ContainsRune s' r
  end.

(** The loop of [genSplit] for a non-empty separator: cut at every
    occurrence of [sep], left to right, occurrences not overlapping.
    [skip] counts the bytes of a separator just matched that are still to
    be dropped; [cur] is the piece being collected. *)
Fixpoint splitFrom (sep : string) (skip : nat) (cur s : string) : list string :=
  match s with
  | EmptyString => [cur]
  | String c s' =>
      match skip with
      | S k => splitFrom sep k cur s'
      | O =>
          if String.prefix sep s
          then cur :: splitFrom sep (String.length sep - 1) "" s'
          else splitFrom sep 0 (cur +:+ String c "") s'
      end
  end.

(** [strings.Split(s, sep)], for the non-empty separators the service
    passes (["Bearer "], ["@"], ["."]). *)
Definition Split (s sep : string) : list string := splitFrom sep 0 "" s.

(** [sub] occurs somewhere in [s]. *)
Definition Contains (s sub : string) : Prop :=
  exists pre post, s = pre +:+ sub +:+ post.

(** [s] ends with [suffix]. *)
Definition EndsWith (s suffix : string) : Prop :=
  exists pre, s = pre +:+ suffix.

End strings.

(** Number of occurrences of a byte, as [strings.Count(s, string(r))]. *)
Fixpoint CountRune (s : string) (r : ascii) : nat :=
  match s with
  | EmptyString => 0
  | String c s' => (if Ascii.eqb c r then 1 else 0) + CountRune s' r
  end.

(** ** Errors

    Go's [error] values, by the constructor that makes them. *)
Module codes.
(** The gRPC status codes the service uses. *)
Inductive Code :=
| OK | InvalidArgument | NotFound | AlreadyExists | PermissionDenied
| FailedPrecondition | Internal | Unauthenticated.
End codes.

#[local] Set Warnings "-register-all".

Inductive error : Type :=
| errors_New (text : string)
    (** [errors.New(text)] *)
| fmt_Errorf (format arg : string)
    (** [fmt.Errorf(format, arg)] *)
| grpc_Errorf (c : codes.Code) (format : string) (arg : option error)
    (** [grpc.Errorf(c, format, arg)]; [arg] is the error whose text is
        formatted in, if any *)
| jwt_ValidationError (Inner : option error) (Errors : N) (text : string).
    (** [&jwt.ValidationError{Inner, Errors, text}] *)

(** [status.Code(err)] *)
Definition status_Code (e : error) : option codes.Code :=
  match e with
  | grpc_Errorf c _ _ => Some c
  | _ => None
  end.

(** [err != nil] *)
Definition is_error (err : option error) : bool :=
  match err with Some _ => true | None => false end.

(** A call either returns or panics (an index out of range). *)
Inductive outcome (A : Type) : Type :=
| Returns (a : A)
| Panics.
Arguments Returns {A} a.
Arguments Panics {A}.

(** ** The e-mail format check *)
Section Email.

(** [net.LookupIP(host)]: the addresses found and the error, if any. *)
Variable LookupIP : string -> list string * option error.

(** [validateEmailFormat(email)]; [None] is Go's [nil] error. *)
Definition validateEmailFormat (email : string) : outcome (option error) :=
  if negb (strings.ContainsRune email "@") then
    Returns (Some (errors_New "invalid email format"))
  else
    let parts := strings.Split email "@" in
    match parts with
    | account :: host :: _ =>
        (* validate the account portion of email *)
        if strings.ContainsRune account "+" then
          Returns (Some (errors_New "email must not contain '+'"))
        else if strings.HasSuffix account "." then
          Returns (Some (errors_New "email must not end with '.'"))
        else
          (* check the given email host is valid *)
          let '(n, err) := LookupIP host in
          if is_error err || (length n =? 0)%nat then
            Returns (Some (fmt_Errorf "invalid email host '%s'" host))
          else Returns None
    | _ => Panics (* parts[0] or parts[1] out of range *)
    end.

End Email.

(** The violations of the format check, under the names the design gives
    them. *)
Definition MalformedAddress : error := errors_New "invalid email format".
Definition CatchAllNotAllowed : error := errors_New "email must not contain '+'".
Definition TrailingPeriod : error := errors_New "email must not end with '.'".
Definition UnresolvableDomain (host : string) : error :=
  fmt_Errorf "invalid email host '%s'" host.

(** A resolver that finds every host, and one that finds none. *)
Definition resolve_all : string -> list string * option error :=
  fun _ => (["192.0.2.1"], None).
Definition resolve_none : string -> list string * option error :=
  fun _ => ([], Some (errors_New "no such host")).

(** ** Time

    An instant is its number of nanoseconds since the Unix epoch, a duration
    a number of nanoseconds; both are taken within the range of Go's
    [time.Time] and [int64], so no arithmetic below wraps around. *)
Module time.
Definition Time := Z.
Definition Duration := Z.
Definition Second : Duration := 1000000000.
Definition Hour : Duration := 3600 * Second.
(** [t.Add(d)] *)
Definition Add (t : Time) (d : Duration) : Time := t + d.
(** [t.Unix()]: whole seconds since the epoch, rounded down. *)
Definition Unix (t : Time) : Z := t / Second.
End time.

(** ** JSON values and claims

    What [encoding/json] puts in a [map[string]interface{}]. A number is
    held by its value as an [int64], the only way the code reads one
    ([int64(exp)]); arrays and objects never occur in a claim that is
    read. *)
Inductive JSON : Type :=
| JNull
| JBool (b : bool)
| JNum (n : Z)
| JStr (s : string).

(** [jwt.MapClaims] *)
Abbreviation MapClaims := (gmap string JSON).

Definition claimUser : string := "id".
Definition claimChallenge : string := "challenge".
Definition claimOrigAt : string := "orig_iat".
Definition claimExpiry : string := "exp".

(** ** The world the service runs in

    The clock, the identity store behind [a.users], and a log of the calls
    made to that store. *)

(** The fields of [models.User] the service reads. *)
Record User := {
  UserName : string;
  EmailAddress : string;
  EmailEnabled : bool;
  EmailVerificationToken : string;
  AdminAccess : bool;
}.

Inductive Event : Type :=
| EvFindByUserName (username : string)
| EvValidateEmailVerificationToken (username token : string).

Record World := {
  wclock : nat -> time.Time;    (** the reading of the n-th look at the clock *)
  wtick : nat;                  (** how often the clock has been read *)
  wusers : gmap string User;    (** the identity store, by user name *)
  wlog : list Event;            (** calls to the identity store, oldest first *)
}.

(** Computations that read the clock and use the store. *)
Definition M (A : Type) : Type := World -> A * World.

#[global] Instance M_ret : MRet M := fun A a w => (a, w).
#[global] Instance M_bind : MBind M :=
  fun A B k m w => let '(a, w') := m w in k a w'.

(** [time.Now()] *)
Definition time_Now : M time.Time :=
  fun w => (wclock w (wtick w),
            {| wclock := wclock w; wtick := S (wtick w);
               wusers := wusers w; wlog := wlog w |}).

Definition log_event (e : Event) : M unit :=
  fun w => (tt, {| wclock := wclock w; wtick := wtick w;
                   wusers := wusers w; wlog := wlog w ++ [e] |}).

Definition set_users (us : gmap string User) : M unit :=
  fun w => (tt, {| wclock := wclock w; wtick := wtick w;
                   wusers := us; wlog := wlog w |}).

Definition get_users : M (gmap string User) := fun w => (wusers w, w).

(** *** The identity store *)
Module users.

(** Modelled from the spec: [a.users.FindByUserName], whose implementation
    is not part of this file's source: the lookup-by-username operation of
    the identity store; [None] stands for its error (user not found). *)
Definition FindByUserName (username : string) : M (option User) :=
  _ ← log_event (EvFindByUserName username);
  us ← get_users;
  mret (us !! username).

(** Modelled from the spec: what the consume operation does to the record of
    a user: the e-mail address counts as verified and no verification value
    is active any more. *)
Definition consume (u : User) : User :=
  {| UserName := UserName u; EmailAddress := EmailAddress u;
     EmailEnabled := true; EmailVerificationToken := "";
     AdminAccess := AdminAccess u |}.

(** Modelled from the spec: [a.users.ValidateEmailVerificationToken], whose
    implementation is not part of this file's source: the consume
    operation of the identity store, which marks the one-time verification
    value of the user as used, so that the store no longer reports it as
    active: the value it reports afterwards is the empty string. [None]
    stands for the operation's error: the user is unknown, or the value is
    not the one the store holds. *)
Definition ValidateEmailVerificationToken (username token : string)
  : M (option User) :=
  _ ← log_event (EvValidateEmailVerificationToken username token);
  us ← get_users;
  match us !! username with
  | None => mret None
  | Some u =>
      if negb (String.eqb (EmailVerificationToken u) token)
      then mret None
      else
        _ ← set_users (<[username := consume u]> us);
        mret (Some (consume u))
  end.

End users.

(** ** jwt-go v3

    The token library the service imports ([gopkg.in/dgrijalva/jwt-go.v3],
    release v3.2.0), which is not part of the repository: its signing
    methods ([signing_method.go], [hmac.go], [none.go]), [MapClaims.Valid]
    ([map_claims.go], [claims.go]), [NewWithClaims] and [SignedString]
    ([token.go]), [Parse] ([parser.go]) and [ValidationError]
    ([errors.go]). *)

(** What the library takes from [encoding/json], [encoding/base64] and
    [crypto/hmac], and [Time.String] of package [time]. *)
Record Primitives := {
  (** [EncodeSegment(json.Marshal(m))] for a header or a claim set *)
  EncodeJSONSegment : gmap string JSON -> string;
  (** [DecodeSegment] followed by JSON decoding into a map *)
  DecodeJSONSegment : string -> gmap string JSON + error;
  (** base64url encoding of the signature bytes, and its inverse *)
  EncodeSegment : string -> string;
  DecodeSegment : string -> string + error;
  (** [hmac.New(hash, key)], [Write(msg)], [Sum(nil)] *)
  hmac_Sum : N -> string -> string -> string;
  (** [t.UTC().String()] *)
  Time_String : time.Time -> string;
}.

Module jwt.

(** The signing methods the library registers. *)
Inductive SigningMethod :=
| HS256 | HS384 | HS512
| RS256 | RS384 | RS512
| PS256 | PS384 | PS512
| ES256 | ES384 | ES512
| none.

#[global] Instance SigningMethod_eq_dec : EqDecision SigningMethod.
Proof. solve_decision. Defined.

(** [m.Alg()] *)
Definition Alg (m : SigningMethod) : string :=
  match m with
  | HS256 => "HS256" | HS384 => "HS384" | HS512 => "HS512"
  | RS256 => "RS256" | RS384 => "RS384" | RS512 => "RS512"
  | PS256 => "PS256" | PS384 => "PS384" | PS512 => "PS512"
  | ES256 => "ES256" | ES384 => "ES384" | ES512 => "ES512"
  | none => "none"
  end.

Definition registered : list SigningMethod :=
  [HS256; HS384; HS512; RS256; RS384; RS512;
   PS256; PS384; PS512; ES256; ES384; ES512; none].

(** [jwt.GetSigningMethod(alg)]; [None] is Go's [nil]. *)
Definition GetSigningMethod (alg : string) : option SigningMethod :=
  List.find (fun m => String.eqb (Alg m) alg) registered.

(** The hash of an HMAC method, by its output size in bits; [None] for a
    method of another type. *)
Definition hmac_hash (m : SigningMethod) : option N :=
  match m with
  | HS256 => Some 256%N | HS384 => Some 384%N | HS512 => Some 512%N
  | _ => None
  end.

(** Whether the type assertion of [m] to a pointer to
    [jwt.SigningMethodHMAC] succeeds. *)
Definition is_HMAC (m : SigningMethod) : bool :=
  match hmac_hash m with Some _ => true | None => false end.

(** The bits of [ValidationError.Errors]. *)
Definition ValidationErrorMalformed : N := N.shiftl 1 0.
Definition ValidationErrorUnverifiable : N := N.shiftl 1 1.
Definition ValidationErrorSignatureInvalid : N := N.shiftl 1 2.
Definition ValidationErrorAudience : N := N.shiftl 1 3.
Definition ValidationErrorExpired : N := N.shiftl 1 4.
Definition ValidationErrorIssuedAt : N := N.shiftl 1 5.
Definition ValidationErrorIssuer : N := N.shiftl 1 6.
Definition ValidationErrorNotValidYet : N := N.shiftl 1 7.
Definition ValidationErrorId : N := N.shiftl 1 8.
Definition ValidationErrorClaimsInvalid : N := N.shiftl 1 9.

(** [jwt.NewValidationError(text, flags)] *)
Definition NewValidationError (text : string) (flags : N) : error :=
  jwt_ValidationError None flags text.

Definition ErrInvalidKeyType : error := errors_New "key is of invalid type".
Definition ErrSignatureInvalid : error := errors_New "signature is invalid".
Definition NoneSignatureTypeDisallowedError : error :=
  NewValidationError "'none' signature type is not allowed"
                     ValidationErrorSignatureInvalid.

(** *** Claims *)

Definition verifyExp (exp now : Z) (required : bool) : bool :=
  if exp =? 0 then negb required else now <=? exp.

Definition verifyIat (iat now : Z) (required : bool) : bool :=
  if iat =? 0 then negb required else iat <=? now.

Definition verifyNbf (nbf now : Z) (required : bool) : bool :=
  if nbf =? 0 then negb required else nbf <=? now.

(** [m.VerifyExpiresAt(cmp, req)]: only a number is compared; a claim that
    is absent or of another type counts as unset. *)
Definition VerifyExpiresAt (m : MapClaims) (cmp : Z) (req : bool) : bool :=
  match m !! "exp" with
  | Some (JNum exp) => verifyExp exp cmp req
  | _ => negb req
  end.

Definition VerifyIssuedAt (m : MapClaims) (cmp : Z) (req : bool) : bool :=
  match m !! "iat" with
  | Some (JNum iat) => verifyIat iat cmp req
  | _ => negb req
  end.

Definition VerifyNotBefore (m : MapClaims) (cmp : Z) (req : bool) : bool :=
  match m !! "nbf" with
  | Some (JNum nbf) => verifyNbf nbf cmp req
  | _ => negb req
  end.

(** The accumulating [vErr] of [Valid] and [Parse]. *)
Record vErr := { Inner : option error; Errors : N }.

Definition flag (cond : bool) (inner : error) (bit : N) (v : vErr) : vErr :=
  if cond then {| Inner := Some inner; Errors := N.lor (Errors v) bit |}
  else v.

(** [vErr.valid()] *)
Definition vErr_valid (v : vErr) : bool := (Errors v =? 0)%N.

(** [m.Valid()] once [now := TimeFunc().Unix()] has been read. *)
Definition MapClaims_Valid_at (now : Z) (m : MapClaims) : option error :=
  let v := {| Inner := None; Errors := 0 |} in
  let v := flag (negb (VerifyExpiresAt m now false))
                (errors_New "Token is expired") ValidationErrorExpired v in
  let v := flag (negb (VerifyIssuedAt m now false))
                (errors_New "Token used before issued")
                ValidationErrorIssuedAt v in
  let v := flag (negb (VerifyNotBefore m now false))
                (errors_New "Token is not valid yet")
                ValidationErrorNotValidYet v in
  if vErr_valid v then None
  else Some (jwt_ValidationError (Inner v) (Errors v) "").

(** [m.Valid()] *)
Definition MapClaims_Valid (m : MapClaims) : M (option error) :=
  t ← time_Now;
  mret (MapClaims_Valid_at (time.Unix t) m).

(** *** Tokens *)

Record Token := {
  Raw : string;
  Method : SigningMethod;
  Header : gmap string JSON;
  Claims : MapClaims;
  Signature : string;
  Valid : bool;
}.

(** [jwt.NewWithClaims(method, claims)] *)
Definition NewWithClaims (method : SigningMethod) (claims : MapClaims) : Token :=
  {| Raw := "";
     Method := method;
     Header := {[ "typ" := JStr "JWT"; "alg" := JStr (Alg method) ]};
     Claims := claims;
     Signature := "";
     Valid := false |}.

Section WithPrimitives.

Variable P : Primitives.

(** [m.Sign(signingString, key)] with a [[]byte] key: only the HMAC
    methods take such a key. *)
Definition Sign (m : SigningMethod) (signingString key : string)
  : string + error :=
  match hmac_hash m with
  | Some h => inl (EncodeSegment P (hmac_Sum P h key signingString))
  | None =>
      match m with
      | none => inr NoneSignatureTypeDisallowedError
      | _ => inr ErrInvalidKeyType
      end
  end.

(** [m.Verify(signingString, signature, key)] with a [[]byte] key;
    [None] is the [nil] error. *)
Definition Verify (m : SigningMethod) (signingString signature key : string)
  : option error :=
  match hmac_hash m with
  | Some h =>
      match DecodeSegment P signature with
      | inr err => Some err
      | inl sig =>
          if String.eqb sig (hmac_Sum P h key signingString) then None
          else Some ErrSignatureInvalid
      end
  | None =>
      match m with
      | none => Some NoneSignatureTypeDisallowedError
      | _ => Some ErrInvalidKeyType
      end
  end.

(** [t.SigningString()] *)
Definition SigningString (t : Token) : string :=
  EncodeJSONSegment P (Header t) +:+ "." +:+ EncodeJSONSegment P (Claims t).

(** [t.SignedString(key)] *)
Definition SignedString (t : Token) (key : string) : string * option error :=
  let sstr := SigningString t in
  match Sign (Method t) sstr key with
  | inr err => ("", Some err)
  | inl sig => (sstr +:+ "." +:+ sig, None)
  end.

(** The first half of [Parse]: the structure of the token, its header
    and claims, and the signing method its header names. *)
Definition ParseUnverified (tokenString : string)
  : (Token * (string * string * string)) + error :=
  match strings.Split tokenString "." with
  | [p0; p1; p2] =>
      match DecodeJSONSegment P p0 with
      | inr err => inr (jwt_ValidationError (Some err) ValidationErrorMalformed "")
      | inl header =>
          match DecodeJSONSegment P p1 with
          | inr err =>
              inr (jwt_ValidationError (Some err) ValidationErrorMalformed "")
          | inl claims =>
              match header !! "alg" with
              | Some (JStr method) =>
                  match GetSigningMethod method with
                  | None =>
                      inr (NewValidationError
                             "signing method (alg) is unavailable."
                             ValidationErrorUnverifiable)
                  | Some m =>
                      inl ({| Raw := tokenString; Method := m;
                              Header := header; Claims := claims;
                              Signature := ""; Valid := false |},
                           (p0, p1, p2))
                  end
              | _ =>
                  inr (NewValidationError
                         "signing method (alg) is unspecified."
                         ValidationErrorUnverifiable)
              end
          end
      end
  | _ =>
      inr (NewValidationError "token contains an invalid number of segments"
                              ValidationErrorMalformed)
  end.

(** A [jwt.Keyfunc] that returns a [[]byte] key. The closures the service
    passes assign to variables of the enclosing function; [Env] holds
    those variables. *)
Definition Keyfunc (Env : Type) : Type :=
  Token -> Env -> M (Env * (string + error)).

(** [jwt.Parse(tokenString, keyFunc)]. Both callers drop the token when
    the error is not [nil], so the result is the token or the error. *)
Definition Parse {Env : Type} (tokenString : string)
    (keyFunc : Keyfunc Env) (env : Env) : M (Env * (Token + error)) :=
  match ParseUnverified tokenString with
  | inr err => mret (env, inr err)
  | inl (token, (p0, p1, p2)) =>
      (* Lookup key *)
      '(env, k) ← keyFunc token env;
      match k with
      | inr err =>
          mret (env,
                inr match err with
                    | jwt_ValidationError _ _ _ => err
                    | _ => jwt_ValidationError (Some err)
                             ValidationErrorUnverifiable ""
                    end)
      | inl key =>
          (* Validate Claims *)
          cerr ← MapClaims_Valid (Claims token);
          let v :=
            match cerr with
            | None => {| Inner := None; Errors := 0 |}
            | Some (jwt_ValidationError i e _) => {| Inner := i; Errors := e |}
            | Some err =>
                {| Inner := Some err; Errors := ValidationErrorClaimsInvalid |}
            end in
          (* Perform validation *)
          let v :=
            match Verify (Method token) (p0 +:+ "." +:+ p1) p2 key with
            | Some err =>
                {| Inner := Some err;
                   Errors := N.lor (Errors v) ValidationErrorSignatureInvalid |}
            | None => v
            end in
          if vErr_valid v then
            mret (env, inl {| Raw := Raw token; Method := Method token;
                              Header := Header token; Claims := Claims token;
                              Signature := p2; Valid := true |})
          else
            mret (env, inr (jwt_ValidationError (Inner v) (Errors v) ""))
      end
  end.

End WithPrimitives.

End jwt.

(** ** Call contexts, metadata and streams *)

(** A [context.Context] as the gate sees it: the incoming gRPC metadata, if
    any, and the two values the gate attaches. *)
Record Context := {
  incoming : option (gmap string (list string));
  claimsValue : option MapClaims;
  userValue : option User;
}.

Module metadata.
(** [metadata.FromIncomingContext(ctx)]; [None] when [ok] is false or the
    map is [nil]. *)
Definition FromIncomingContext (ctx : Context)
  : option (gmap string (list string)) := incoming ctx.
End metadata.

(** Modelled from the spec: [ctxSetClaims], defined outside this file's
    source: attaches the validated claims to the call's context. *)
Definition ctxSetClaims (ctx : Context) (claims : MapClaims) : Context :=
  {| incoming := incoming ctx; claimsValue := Some claims;
     userValue := userValue ctx |}.

(** Modelled from the spec: [ctxSetUser], defined outside this file's
    source: attaches the resolved identity to the call's context. *)
Definition ctxSetUser (ctx : Context) (user : option User) : Context :=
  {| incoming := incoming ctx; claimsValue := claimsValue ctx;
     userValue := user |}.

(** A [grpc.ServerStream]: a stream of the transport with the context it was
    opened with, or a [grpc_middleware.WrappedServerStream] around one. *)
Inductive ServerStream : Type :=
| TransportStream (ctx : Context)
| WrappedServerStream (inner : ServerStream) (WrappedContext : Context).

(** [stream.Context()] *)
Definition stream_Context (stream : ServerStream) : Context :=
  match stream with
  | TransportStream ctx => ctx
  | WrappedServerStream _ ctx => ctx
  end.

(** [grpc_middleware.WrapServerStream(stream)] followed by the assignment
    [wrapped.WrappedContext = ctx]. *)
Definition WrapServerStream_with (stream : ServerStream) (ctx : Context)
  : ServerStream :=
  match stream with
  | WrappedServerStream inner _ => WrappedServerStream inner ctx
  | _ => WrappedServerStream stream ctx
  end.

(** [grpc.UnaryServerInfo] and [grpc.StreamServerInfo] *)
Record ServerInfo := { FullMethod : string }.

(** ** HTTP requests and the responses of package [res] *)
Record Request := { URL_Query : gmap string (list string) }.

(** [r.URL.Query().Get(key)] *)
Definition Query_Get (r : Request) (key : string) : string :=
  match URL_Query r !! key with
  | Some (v :: _) => v
  | _ => ""
  end.

Inductive Response : Type :=
| MsgOK (message : string)
| ErrBadRequest (message : string)
| ErrUnauthorized (message : string)
| ErrNotFound (message : string)
| ErrInternalServer (message : string).

(** The HTTP status a response is rendered with. *)
Definition StatusCode (r : Response) : Z :=
  match r with
  | MsgOK _ => 200
  | ErrBadRequest _ => 400
  | ErrUnauthorized _ => 401
  | ErrNotFound _ => 404
  | ErrInternalServer _ => 500
  end.

(** ** The authentication service *)

(** [JWTConfig] denotes JWT signing configuration. *)
Record JWTConfig := {
  Key : string;
  Realm : string;
  Timeout : time.Duration;
  SigningAlgo : jwt.SigningMethod;
}.

(** [AuthService]; its [users] are the store of the world. *)
Record AuthService := {
  verifyDomain : string;
  jwt : JWTConfig;
  dev : bool;
}.

Definition Unauthenticated (format : string) (arg : option error) : error :=
  grpc_Errorf codes.Unauthenticated format arg.

Section Service.

Variable P : Primitives.

(** The key-lookup closure of [validate]. It assigns the variables [user]
    and [claims] of [validate]. The type assertion of [t.Claims] to
    [jwt.MapClaims] cannot fail, [jwt.Parse] decodes into a
    [jwt.MapClaims]. *)
Definition validate_keyFunc (a : AuthService)
  : jwt.Keyfunc (option User * MapClaims) :=
  fun t '(user, _) =>
    (* verify the claims *)
    let claims := jwt.Claims t in
    (* check expiry *)
    cerr ← jwt.MapClaims_Valid claims;
    match cerr with
    | Some err =>
        mret ((user, claims), inr (Unauthenticated "invalid claims: %s" (Some err)))
    | None =>
        (* retrieve ID *)
        match claims !! claimUser with
        | Some (JStr userID) =>
            if String.eqb userID "" then
              mret ((user, claims),
                    inr (Unauthenticated "invalid user associated with token" None))
            else
              (* the user should be valid *)
              found ← users.FindByUserName userID;
              match found with
              | None =>
                  mret ((None, claims),
                        inr (Unauthenticated
                               "unable to find user associated with token" None))
              | Some u => mret ((Some u, claims), inl (Key (jwt a)))
              end
        | _ =>
            mret ((user, claims),
                  inr (Unauthenticated "invalid user associated with token" None))
        end
    end.

(** [a.validate(ctx)]: the context with the claims and the user set, or the
    error. *)
Definition validate (a : AuthService) (ctx : Context) : M (Context + error) :=
  (* get authorization from context *)
  match metadata.FromIncomingContext ctx with
  | None => mret (inr (Unauthenticated "missing context metadata" None))
  | Some meta =>
      match meta !! "authorization" with
      | Some (bearerString :: _) =>
          (* split out the actual token from the header. *)
          match strings.Split bearerString "Bearer " with
          | _ :: tokenString :: _ =>
              '(env, r) ← jwt.Parse P tokenString (validate_keyFunc a) (None, ∅);
              match r with
              | inr err => mret (inr (Unauthenticated "invalid key: %v" (Some err)))
              | inl t =>
                  if negb (jwt.Valid t) then
                    mret (inr (Unauthenticated "invalid token" None))
                  else
                    (* set user in for retrieval context *)
                    mret (inl (ctxSetUser (ctxSetClaims ctx (snd env)) (fst env)))
              end
          | _ => mret (inr (Unauthenticated "invalid key" None))
          end
      | _ => mret (inr (Unauthenticated "no key provided" None))
      end
  end.

(** [a.signAPIToken(user)] *)
Definition signAPIToken (a : AuthService) (user : string)
  : M (Z * string * option error) :=
  now ← time_Now;
  let expire := time.Unix (time.Add now (Timeout (jwt a))) in
  now' ← time_Now;
  let '(token, err) :=
    jwt.SignedString P
      (jwt.NewWithClaims (SigningAlgo (jwt a))
         {[ claimUser := JStr user;
            claimExpiry := JNum expire;
            claimOrigAt := JNum (time.Unix now') ]})
      (Key (jwt a)) in
  mret (expire, token, err).

(** [a.signChallengeToken(user, challenge)] *)
Definition signChallengeToken (a : AuthService) (user challenge : string)
  : M (string * option error) :=
  now ← time_Now;
  now' ← time_Now;
  mret (jwt.SignedString P
          (jwt.NewWithClaims (SigningAlgo (jwt a))
             {[ claimUser := JStr user;
                claimChallenge := JStr challenge;
                claimExpiry :=
                  JStr (Time_String P (time.Add now (time.Hour * 24)));
                claimOrigAt := JNum (time.Unix now') ]})
          (Key (jwt a))).

(** *** The interceptors *)
Section Interceptors.

Variables Req Resp Srv : Type.

(** [grpc.UnaryHandler] and [grpc.StreamHandler] *)
Definition UnaryHandler : Type := Context -> Req -> M (option Resp * option error).
Definition StreamHandler : Type := Srv -> ServerStream -> M (option error).

(** [exclude := make(map[string]bool)] filled from [exceptions]. *)
Definition make_exclude (exceptions : list string) : gmap string bool :=
  foldl (fun exclude e => <[e := true]> exclude) ∅ exceptions.

(** [v, found := exclude[method]] *)
Definition exclude_lookup (exclude : gmap string bool) (method : string)
  : bool * bool :=
  match exclude !! method with
  | Some v => (v, true)
  | None => (false, false)
  end.

(** [unaryInterceptor] handles all incoming unary RPC requests. *)
Definition unaryInterceptor (a : AuthService) (exclude : gmap string bool)
    (ctx : Context) (req : Req) (info : ServerInfo)
    (handler : option UnaryHandler) : M (option Resp * option error) :=
  let '(v, found) := exclude_lookup exclude (FullMethod info) in
  r ← (if negb v && negb found then validate a ctx else mret (inl ctx));
  match r with
  | inr err => mret (None, Some err)
  | inl ctx =>
      match handler with
      | Some handler => handler ctx req
      | None => mret (None, None)
      end
  end.

(** [streamInterceptor] handles all incoming stream RPC requests. *)
Definition streamInterceptor (a : AuthService) (exclude : gmap string bool)
    (srv : Srv) (stream : ServerStream) (info : ServerInfo)
    (handler : option StreamHandler) : M (option error) :=
  let '(v, found) := exclude_lookup exclude (FullMethod info) in
  r ← (if negb v && negb found then
         r ← validate a (stream_Context stream);
         match r with
         | inr err => mret (inr err)
         | inl ctx => mret (inl (WrapServerStream_with stream ctx))
         end
       else mret (inl stream));
  match r with
  | inr err => mret (Some err)
  | inl stream =>
      match handler with
      | Some handler => handler srv stream
      | None => mret None
      end
  end.

(** [a.newAuthInterceptors(exceptions...)] *)
Definition newAuthInterceptors (a : AuthService) (exceptions : list string) :=
  let exclude := make_exclude exceptions in
  (unaryInterceptor a exclude, streamInterceptor a exclude).

End Interceptors.

(** *** The verification endpoint *)

(** The key-lookup closure of [VerificationHandler]. *)
Definition verification_keyFunc (a : AuthService) : jwt.Keyfunc unit :=
  fun token env =>
    if negb (jwt.is_HMAC (jwt.Method token)) then
      mret (env, inr (fmt_Errorf "unable to validate signing method: %v"
                                 (jwt.Alg (jwt.Method token))))
    else if negb (bool_decide (jwt.Method token = SigningAlgo (jwt a))) then
      mret (env, inr (errors_New "expect hs512 signing method"))
    else mret (env, inl (Key (jwt a))).

(** [a.VerificationHandler(l)] applied to a request: the response it
    renders. *)
Definition VerificationHandler (a : AuthService) (r : Request) : M Response :=
  let user := Query_Get r "user" in
  let tokenStr := Query_Get r "token" in
  if String.eqb user "" || String.eqb tokenStr "" then
    mret (ErrBadRequest "parameters user, token cannot be empty")
  else
    '(_, parsed) ← jwt.Parse P tokenStr (verification_keyFunc a) tt;
    match parsed with
    | inr err => mret (ErrUnauthorized "invalid token")
    | inl token =>
        if negb (jwt.Valid token) then mret (ErrUnauthorized "invalid token")
        else
          let claims := jwt.Claims token in
          let user_ok :=
            match claims !! claimUser with
            | Some (JStr v) => String.eqb v user
            | _ => false
            end in
          if negb user_ok then
            mret (ErrBadRequest "user in token does not match request")
          else
            (* check expiry *)
            cerr ← jwt.MapClaims_Valid claims;
            match cerr with
            | Some err => mret (ErrBadRequest "invalid claims")
            | None =>
                found ← users.FindByUserName user;
                match found with
                | None => mret (ErrNotFound "user not found")
                | Some u =>
                    match claims !! claimChallenge with
                    | Some (JStr challenge) =>
                        if negb (String.eqb challenge (EmailVerificationToken u))
                        then mret (ErrBadRequest "challenge in token is incorrect")
                        else
                          v ← users.ValidateEmailVerificationToken user challenge;
                          match v with
                          | None => mret (ErrInternalServer "unable to validate user")
                          | Some _ => mret (MsgOK "user verified")
                          end
                    | _ => mret (ErrBadRequest "challenge in token is incorrect")
                    end
                end
            end
    end.

End Service.

(** ** Definitions the statements use *)

(** The first [authorization] value of the call, when it has one. *)
Definition bearerString_of (ctx : Context) : option string :=
  match metadata.FromIncomingContext ctx with
  | None => None
  | Some meta =>
      match meta !! "authorization" with
      | Some (bearerString :: _) => Some bearerString
      | _ => None
      end
  end.

(** The call carries no [authorization] value, or its first one does not
    contain ["Bearer "]. *)
Definition no_bearer (ctx : Context) : Prop :=
  match bearerString_of ctx with
  | None => True
  | Some bearerString => ~ strings.Contains bearerString "Bearer "
  end.

(** A segment of a compact token holds neither a dot nor a space. *)
Definition segment_ok (seg : string) : Prop :=
  strings.ContainsRune seg "." = false /\ strings.ContainsRune seg " " = false.

(** The primitives take back what they have given out for this token: its
    three segments are proper segments and decode to the header, the claims
    and the signature they encode. *)
Definition round_trips (P : Primitives) (t : jwt.Token) (h : N) (key : string)
  : Prop :=
  let hseg := EncodeJSONSegment P (jwt.Header t) in
  let cseg := EncodeJSONSegment P (jwt.Claims t) in
  let mac := hmac_Sum P h key (hseg +:+ "." +:+ cseg) in
  segment_ok hseg /\ segment_ok cseg /\ segment_ok (EncodeSegment P mac)
  /\ DecodeJSONSegment P hseg = inl (jwt.Header t)
  /\ DecodeJSONSegment P cseg = inl (jwt.Claims t)
  /\ DecodeSegment P (EncodeSegment P mac) = inl mac.

(** The world after [validate] has read the clock twice and asked the store
    for [uid]. *)
Definition after_validate (w : World) (uid : string) : World :=
  {| wclock := wclock w; wtick := S (S (wtick w)); wusers := wusers w;
     wlog := wlog w ++ [EvFindByUserName uid] |}.

(** A small instance to run the service on. Segments are printed as text and
    read back by search among the headers and claim sets below; the keyed
    hash is a tagged copy of its input. *)
Module Toy.

Definition show (v : JSON) : string :=
  match v with
  | JNull => "null"
  | JBool true => "true"
  | JBool false => "false"
  | JNum n => pretty n
  | JStr s => "'" +:+ s
  end.

Definition encode (m : gmap string JSON) : string :=
  foldr (fun '(k, v) acc => k +:+ ":" +:+ show v +:+ ";" +:+ acc) ""
        (map_to_list m).

Definition utc_string (t : time.Time) : string := "T" +:+ pretty (time.Unix t).

Definition header (alg : string) : gmap string JSON :=
  {[ "typ" := JStr "JWT"; "alg" := JStr alg ]}.

Definition session (user : string) (exp iat : Z) : MapClaims :=
  {[ claimUser := JStr user; claimExpiry := JNum exp; claimOrigAt := JNum iat ]}.

Definition challenge (user value : string) (exp : JSON) (iat : Z) : MapClaims :=
  {[ claimUser := JStr user; claimChallenge := JStr value;
     claimExpiry := exp; claimOrigAt := JNum iat ]}.

Definition universe : list (gmap string JSON) :=
  [ header "HS512"; header "HS256"; header "RS256";
    session "bob" 4600 1000;
    session "" 4600 1000;
    session "bob" 4599 1000;
    session "bob" 0 1000;
    challenge "bob" "abc" (JStr (utc_string (87400 * time.Second))) 1000;
    challenge "bob" "abc" (JNum 2000) 1000 ].

Definition decode (s : string) : gmap string JSON + error :=
  match List.find (fun m => String.eqb (encode m) s) universe with
  | Some m => inl m
  | None => inr (errors_New "invalid character")
  end.

Fixpoint dashes (s : string) : string :=
  match s with
  | EmptyString => EmptyString
  | String c s' =>
      String (if Ascii.eqb c "." then "-"%char else c) (dashes s')
  end.

Definition P : Primitives :=
  {| EncodeJSONSegment := encode;
     DecodeJSONSegment := decode;
     EncodeSegment := fun s => s;
     DecodeSegment := fun s => inl s;
     hmac_Sum := fun h key msg => pretty h +:+ "_" +:+ key +:+ "_" +:+ dashes msg;
     Time_String := utc_string |}.

Definition config : JWTConfig :=
  {| Key := "secret"; Realm := "temporal";
     Timeout := time.Hour; SigningAlgo := jwt.HS512 |}.

Definition a : AuthService :=
  {| verifyDomain := "temporal.example"; jwt := config; dev := false |}.

Definition bob : User :=
  {| UserName := "bob"; EmailAddress := "bob@example.org";
     EmailEnabled := false; EmailVerificationToken := "abc";
     AdminAccess := false |}.

Definition anonymous : User :=
  {| UserName := ""; EmailAddress := "nobody@example.org";
     EmailEnabled := false; EmailVerificationToken := "";
     AdminAccess := false |}.

(** A world whose clock reads [readings], then [last] for ever. *)
Definition world (readings : list Z) (last : Z) (us : gmap string User) : World :=
  {| wclock := fun n => nth n readings last * time.Second;
     wtick := 0; wusers := us; wlog := [] |}.

(** The same, with the readings in nanoseconds. *)
Definition world_ns (readings : list Z) (last : Z) (us : gmap string User)
  : World :=
  {| wclock := fun n => nth n readings last;
     wtick := 0; wusers := us; wlog := [] |}.

Definition store : gmap string User := {[ "bob" := bob; "" := anonymous ]}.

(** A call carrying one [authorization] value. *)
Definition call (authorization : string) : Context :=
  {| incoming := Some {[ "authorization" := [authorization] ]};
     claimsValue := None; userValue := None |}.

(** A call without metadata. *)
Definition bare_call : Context :=
  {| incoming := None; claimsValue := None; userValue := None |}.

Definition redeem (user token : string) : Request :=
  {| URL_Query := {[ "user" := [user]; "token" := [token] ]} |}.

(** A handler that answers with the user it finds in the context. *)
Definition whoami : UnaryHandler unit string :=
  fun ctx _ =>
    mret (Some (match userValue ctx with
                | Some u => UserName u
                | None => "nobody"
                end), None).

(** The session token of [user] signed by method [m] in a world that reads
    1000 s. *)
Definition session_token (m : jwt.SigningMethod) (user : string) : string :=
  (jwt.SignedString P (jwt.NewWithClaims m (session user 4600 1000)) "secret").1.

End Toy.

#[global] Instance JSON_eq_dec : EqDecision JSON.
Proof. solve_decision. Defined.

(** The check behind [toy_universe_ok], as a boolean. *)
Definition toy_entry_ok (x : gmap string JSON) : bool :=
  negb (strings.ContainsRune (Toy.encode x) ".")
  && negb (strings.ContainsRune (Toy.encode x) " ")
  && match Toy.decode (Toy.encode x) with
     | inl y => bool_decide (y = x)
     | inr _ => false
     end.

(** The claims [signAPIToken] signs in world [w]: the expiry comes from the
    first look at the clock, the time of issue from the second. *)
Definition session_claims (a : AuthService) (user : string) (w : World)
  : MapClaims :=
  {[ claimUser := JStr user;
     claimExpiry :=
       JNum (time.Unix (time.Add (wclock w (wtick w)) (Timeout (jwt a))));
     claimOrigAt := JNum (time.Unix (wclock w (S (wtick w)))) ]}.

(** The claims [signChallengeToken] signs in world [w]. *)
Definition challenge_claims (P : Primitives) (user challenge : string)
    (w : World) : MapClaims :=
  {[ claimUser := JStr user;
     claimChallenge := JStr challenge;
     claimExpiry :=
       JStr (Time_String P (time.Add (wclock w (wtick w)) (time.Hour * 24)));
     claimOrigAt := JNum (time.Unix (wclock w (S (wtick w)))) ]}.

(** A session token of bob whose signature has been tampered with. *)
Definition forged_token : string := Toy.session_token jwt.HS512 "bob" +:+ "x".

(** The world after a redemption has read the clock twice, found [u] under
    [user] and consumed its verification value. *)
Definition after_redeem (w : World) (user : string) (u : User) : World :=
  {| wclock := wclock w; wtick := S (S (wtick w));
     wusers := <[user := users.consume u]> (wusers w);
     wlog := wlog w
             ++ [EvFindByUserName user;
                 EvValidateEmailVerificationToken user
                   (EmailVerificationToken u)] |}.

(** The challenge token issued to bob in a world that reads 1000 s. *)
Definition challenge_token : string :=
  (signChallengeToken Toy.P Toy.a "bob" "abc" (Toy.world [] 1000 Toy.store)).1.1.

(** The claims a token string carries, when it has the structure of a
    token. *)
Definition claims_of (P : Primitives) (tokenString : string) : MapClaims :=
  match jwt.ParseUnverified P tokenString with
  | inl (t, _) => jwt.Claims t
  | inr _ => ∅
  end.

(** A challenge token for bob with a numeric expiry of 2000 s. *)
Definition numeric_challenge_token : string :=
  (jwt.SignedString Toy.P
     (jwt.NewWithClaims jwt.HS512 (Toy.challenge "bob" "abc" (JNum 2000) 1000))
     "secret").1.

(** ** The handlers that issue tokens, and [toUser] *)

(** Modelled from the spec: [ctxGetUser], defined outside this file's
    source: the identity the gate attached to the call's context, if any. *)
Definition ctxGetUser (ctx : Context) : option User := userValue ctx.

(** The messages of package [auth] (generated from the protocol
    definition) that [Login] and [Refresh] take and return. A request may be
    [nil]; its getters then return the empty string. *)
Module auth.

Record Credentials := { Username : string; Password : string }.

Definition GetUsername (req : option Credentials) : string :=
  match req with Some c => Username c | None => "" end.

Definition GetPassword (req : option Credentials) : string :=
  match req with Some c => Password c | None => "" end.

(** [auth.Token]; its second field is called [Token] in the source. *)
Record Token := { Expire : Z; Token_ : string }.

End auth.

Section TokenHandlers.

Variable P : Primitives.

(** [a.users.SignIn(user, pw)], a collaborator outside this file's source:
    whether the credentials are right, and the error, if any. *)
Variable SignIn : string -> string -> M (bool * option error).

(** The constant [eh.LoginError]. *)
Variable LoginError : string.

(** [a.Login(ctx, req)] accepts credentials and returns a token for use with
    further requests. *)
Definition Login (a : AuthService) (ctx : Context)
    (req : option auth.Credentials) : M (option auth.Token * option error) :=
  let user := auth.GetUsername req in
  let pw := auth.GetPassword req in
  (* nothing should be empty *)
  if String.eqb user "" || String.eqb pw "" then
    mret (None, Some (grpc_Errorf codes.InvalidArgument
                        "user and password cannot be empty" None))
  else
    (* sign in user *)
    '(ok, err) ← SignIn user pw;
    match err with
    | Some _ => mret (None, Some (grpc_Errorf codes.Internal LoginError None))
    | None =>
        if negb ok then
          mret (None, Some (Unauthenticated "invalid credentials provided" None))
        else
          (* generate token *)
          '(expire, token, err) ← signAPIToken P a user;
          match err with
          | Some _ =>
              mret (None, Some (grpc_Errorf codes.Internal LoginError None))
          | None =>
              (* return token *)
              mret (Some {| auth.Expire := expire; auth.Token_ := token |}, None)
          end
    end.

(** [a.Refresh(ctx, req)] provides a refreshed token associated with an
    authenticated request. *)
Definition Refresh (a : AuthService) (ctx : Context)
  : M (option auth.Token * option error) :=
  match ctxGetUser ctx with
  | None =>
      mret (None, Some (grpc_Errorf codes.NotFound
                          "could not find user associated with token" None))
  | Some user =>
      (* sign a new token for the user *)
      '(expiry, token, err) ← signAPIToken P a (UserName user);
      match err with
      | Some _ => mret (None, Some (grpc_Errorf codes.Internal LoginError None))
      | None =>
          mret (Some {| auth.Expire := expiry; auth.Token_ := token |}, None)
      end
  end.

End TokenHandlers.

(** The closure of [toUser] that fills [IpfsKeys]:
    [for i, key := range k { m[key] = v[i] }], from index [i] on; it panics
    when [v] has no element [i]. *)
Fixpoint IpfsKeys_from (i : nat) (k v : list string) (m : gmap string string)
  : outcome (gmap string string) :=
  match k with
  | [] => Returns m
  | key :: k' =>
      match v !! i with
      | None => Panics
      | Some name => IpfsKeys_from (S i) k' v (<[key := name]> m)
      end
  end.

(** [func(k []string, v []string) map[string]string] of [toUser] *)
Definition toUser_IpfsKeys (k v : list string) : outcome (gmap string string) :=
  IpfsKeys_from 0 k v ∅.

(** The depth of a stream: how many [WrappedServerStream]s lie around the
    stream of the transport. *)
Fixpoint wrap_depth (stream : ServerStream) : nat :=
  match stream with
  | TransportStream _ => 0
  | WrappedServerStream inner _ => S (wrap_depth inner)
  end.

(** A sign-in that knows one password for every user. *)
Definition password_is (pw : string) : string -> string -> M (bool * option error) :=
  fun _ given => mret (String.eqb given pw, None).

(** What [validate] has checked when it hands back a context: the call
    carries a bearer value whose second piece is a token of proper
    structure, the signature verifies under the configured key by the method
    of the token's header, the claims are valid at both looks at the clock,
    they name a non-empty user, the store knows that user, and the context
    is the call's with the claims and that user attached. *)
Definition accepted (P : Primitives) (a : AuthService) (ctx : Context)
    (w : World) (ctx' : Context) (w' : World) : Prop :=
  exists (bearerString x tokenString : string) (more : list string)
         (t : jwt.Token) (p0 p1 p2 uid : string) (u : User),
    bearerString_of ctx = Some bearerString
    /\ strings.Split bearerString "Bearer " = x :: tokenString :: more
    /\ jwt.ParseUnverified P tokenString = inl (t, (p0, p1, p2))
    /\ jwt.Verify P (jwt.Method t) (p0 +:+ "." +:+ p1) p2 (Key (jwt a)) = None
    /\ jwt.MapClaims_Valid_at (time.Unix (wclock w (wtick w))) (jwt.Claims t)
       = None
    /\ jwt.MapClaims_Valid_at (time.Unix (wclock w (S (wtick w)))) (jwt.Claims t)
       = None
    /\ jwt.Claims t !! claimUser = Some (JStr uid)
    /\ uid <> ""
    /\ wusers w !! uid = Some u
    /\ ctx' = ctxSetUser (ctxSetClaims ctx (jwt.Claims t)) (Some u)
    /\ w' = after_validate w uid.

(** The challenge token of bob, signed by HS256 instead of the configured
    HS512. *)
Definition hs256_challenge_token : string :=
  (jwt.SignedString Toy.P
     (jwt.NewWithClaims jwt.HS256
        (Toy.challenge "bob" "abc"
           (JStr (Toy.utc_string (87400 * time.Second))) 1000))
     "secret").1.

(** Bob's credentials, as a login request. *)
Definition bob_login : option auth.Credentials :=
  Some {| auth.Username := "bob"; auth.Password := "hunter2" |}.

(** * Properties *)

Ltac run_go := unfold mbind, M_bind, mret, M_ret in *; cbn beta iota.
Ltac go_cbn :=
  cbn [wclock wtick wusers wlog fst snd
       jwt.Raw jwt.Method jwt.Header jwt.Claims jwt.Signature jwt.Valid].

(** *** Facts about the string functions *)

Lemma string_app_nil_l (s : string) : "" +:+ s = s.
Proof. reflexivity. Qed.

Lemma string_app_cons (c : ascii) (a b : string) :
  String c a +:+ b = String c (a +:+ b).
Proof. reflexivity. Qed.

Ltac str_norm := rewrite ?string_app_cons, ?string_app_nil_l in *.

Lemma string_app_nil_r (s : string) : s +:+ "" = s.
Proof. induction s as [|c s IH]; str_norm; [reflexivity | now f_equal]. Qed.

Lemma string_app_assoc (a b c : string) : (a +:+ b) +:+ c = a +:+ (b +:+ c).
Proof. induction a as [|x a IH]; str_norm; [reflexivity | now f_equal]. Qed.

Lemma string_app_length (a b : string) :
  String.length (a +:+ b) = (String.length a + String.length b)%nat.
Proof. induction a as [|x a IH]; str_norm; simpl; [reflexivity | now f_equal]. Qed.

Lemma prefix_spec (p s : string) :
  String.prefix p s = true <-> exists rest, s = p +:+ rest.
Proof.
  revert s. induction p as [|c p IH]; intros s.
  - split; [intros _; now exists s | now destruct s].
  - destruct s as [|d s]; simpl.
    + split; [discriminate | intros [rest H]; discriminate].
    + destruct (ascii_dec c d) as [->|Hne].
      * rewrite IH. split; intros [rest H]; exists rest; str_norm; congruence.
      * split; [discriminate | intros [rest H]; str_norm; congruence].
Qed.

Lemma ContainsRune_app (a b : string) (r : ascii) :
  strings.ContainsRune (a +:+ b) r
  = strings.ContainsRune a r || strings.ContainsRune b r.
Proof.
  induction a as [|c a IH]; str_norm; simpl; [reflexivity|].
  now rewrite IH, orb_assoc.
Qed.

Lemma ContainsRune_false_split (s : string) (r : ascii) :
  strings.ContainsRune s r = false ->
  forall a b, s <> a +:+ String r b.
Proof.
  intros H a b ->. rewrite ContainsRune_app in H. simpl in H.
  rewrite Ascii.eqb_refl in H. simpl in H.
  now rewrite orb_true_r in H.
Qed.

(** A rune that occurs has a first occurrence. *)
Lemma ContainsRune_true_split (s : string) (r : ascii) :
  strings.ContainsRune s r = true ->
  exists a b, s = a +:+ String r b /\ strings.ContainsRune a r = false.
Proof.
  induction s as [|c s IH]; simpl; [discriminate|].
  destruct (Ascii.eqb c r) eqn:E; simpl.
  - intros _. apply Ascii.eqb_eq in E as ->. now exists "", s.
  - intros H. destruct (IH H) as (a & b & -> & Ha).
    exists (String c a), b. simpl. now rewrite E, Ha.
Qed.

Lemma splitFrom_nonempty (sep : string) (k : nat) (cur s : string) :
  (1 <= length (strings.splitFrom sep k cur s))%nat.
Proof.
  revert k cur. induction s as [|c s IH]; intros k cur;
    cbn [strings.splitFrom]; [simpl; lia|].
  destruct k; [|apply IH].
  destruct (String.prefix sep (String c s)); [simpl; lia | apply IH].
Qed.

(** Dropping the rest of a matched separator. *)
Lemma splitFrom_skip (sep x cur b : string) :
  strings.splitFrom sep (String.length x) cur (x +:+ b)
  = strings.splitFrom sep 0 cur b.
Proof.
  induction x as [|c x IH]; str_norm; [reflexivity | exact IH].
Qed.

Lemma Contains_cons (c : ascii) (s sep : string) :
  strings.Contains (String c s) sep <->
  String.prefix sep (String c s) = true \/ strings.Contains s sep.
Proof.
  split.
  - intros (pre & post & H). destruct pre as [|d pre]; str_norm.
    + left. apply prefix_spec. now exists post.
    + right. injection H as _ H. now exists pre, post.
  - intros [H | (pre & post & ->)].
    + apply prefix_spec in H as [rest H]. now exists "", rest.
    + now exists (String c pre), post.
Qed.

Lemma Contains_nil (sep : string) : sep <> "" -> ~ strings.Contains "" sep.
Proof.
  intros Hsep (pre & post & H). destruct pre; str_norm.
  - destruct sep; [congruence | discriminate].
  - discriminate.
Qed.

(** Without an occurrence of the separator nothing is cut. *)
Lemma splitFrom_no_occurrence (sep cur s : string) :
  sep <> "" -> ~ strings.Contains s sep ->
  strings.splitFrom sep 0 cur s = [cur +:+ s].
Proof.
  intros Hsep. revert cur. induction s as [|c s IH]; intros cur Hno;
    cbn [strings.splitFrom].
  - now rewrite string_app_nil_r.
  - destruct (String.prefix sep (String c s)) eqn:E.
    + exfalso. apply Hno, Contains_cons. now left.
    + rewrite IH.
      * now rewrite string_app_assoc.
      * intros Hc. apply Hno, Contains_cons. now right.
Qed.

Lemma splitFrom_occurrence (sep cur s : string) :
  sep <> "" -> strings.Contains s sep ->
  (2 <= length (strings.splitFrom sep 0 cur s))%nat.
Proof.
  intros Hsep. revert cur. induction s as [|c s IH]; intros cur Hc.
  - now apply Contains_nil in Hc.
  - cbn [strings.splitFrom]. destruct (String.prefix sep (String c s)) eqn:E.
    + simpl. pose proof (splitFrom_nonempty sep (String.length sep - 1) "" s). lia.
    + apply IH. apply Contains_cons in Hc as [Hc|Hc]; [congruence | exact Hc].
Qed.

(** [strings.Split] yields fewer than two pieces exactly when the separator
    does not occur. *)
Lemma Split_lt2_iff (s sep : string) :
  sep <> "" ->
  (length (strings.Split s sep) < 2)%nat <-> ~ strings.Contains s sep.
Proof.
  intros Hsep. unfold strings.Split. split.
  - intros Hlen Hc. pose proof (splitFrom_occurrence sep "" s Hsep Hc). lia.
  - intros Hno. rewrite splitFrom_no_occurrence by assumption. simpl. lia.
Qed.

Lemma not_Contains_by_Split (s sep : string) :
  sep <> "" -> (length (strings.Split s sep) <? 2)%nat = true ->
  ~ strings.Contains s sep.
Proof.
  intros Hsep H. apply Nat.ltb_lt in H. now apply Split_lt2_iff.
Qed.

Lemma Split_no_occurrence (s sep : string) :
  sep <> "" -> ~ strings.Contains s sep -> strings.Split s sep = [s].
Proof. intros H1 H2. unfold strings.Split. now rewrite splitFrom_no_occurrence. Qed.

(** A leading separator yields an empty first piece. *)
Lemma Split_leading_sep (sep b : string) :
  sep <> "" -> strings.Split (sep +:+ b) sep = "" :: strings.Split b sep.
Proof.
  intros Hsep. unfold strings.Split.
  destruct sep as [|c sep]; [congruence|]. str_norm.
  cbn [strings.splitFrom].
  assert (String.prefix (String c sep) (String c (sep +:+ b)) = true) as ->.
  { apply prefix_spec. now exists b. }
  f_equal. cbn [String.length]. rewrite Nat.sub_1_r. cbn [Nat.pred].
  apply splitFrom_skip.
Qed.

(** Cutting at the first occurrence of a one-byte separator. *)
Lemma splitFrom_first_byte (c : ascii) (cur a b : string) :
  strings.ContainsRune a c = false ->
  strings.splitFrom (String c "") 0 cur (a +:+ String c b)
  = (cur +:+ a) :: strings.splitFrom (String c "") 0 "" b.
Proof.
  revert cur. induction a as [|d a IH]; intros cur Ha; str_norm.
  - cbn [strings.splitFrom String.prefix]. rewrite string_app_nil_r.
    destruct (ascii_dec c c); [|congruence]. now destruct b.
  - simpl in Ha. apply orb_false_iff in Ha as [Hd Ha].
    cbn [strings.splitFrom String.prefix].
    destruct (ascii_dec c d) as [->|Hne].
    + now rewrite Ascii.eqb_refl in Hd.
    + rewrite IH by assumption. now rewrite string_app_assoc.
Qed.

Lemma Split_first_byte (c : ascii) (a b : string) :
  strings.ContainsRune a c = false ->
  strings.Split (a +:+ String c b) (String c "")
  = a :: strings.Split b (String c "").
Proof. intros Ha. unfold strings.Split. now rewrite splitFrom_first_byte. Qed.

Lemma Split_no_byte (c : ascii) (s : string) :
  strings.ContainsRune s c = false ->
  strings.Split s (String c "") = [s].
Proof.
  intros Hs. apply Split_no_occurrence; [discriminate|].
  intros (pre & post & H). str_norm.
  now apply (ContainsRune_false_split s c Hs pre post).
Qed.

(** [strings.HasSuffix] decides [strings.EndsWith]. *)
Lemma substring_app_r (pre suf : string) :
  String.substring (String.length pre) (String.length suf) (pre +:+ suf) = suf.
Proof.
  induction pre as [|c pre IH]; str_norm; simpl.
  - induction suf as [|d suf IHs]; simpl; [reflexivity | now f_equal].
  - exact IH.
Qed.

Lemma substring_split (n : nat) (s : string) :
  (n <= String.length s)%nat ->
  s = String.substring 0 n s +:+ String.substring n (String.length s - n) s.
Proof.
  revert n. induction s as [|c s IH]; intros n Hn; simpl in *.
  - destruct n; [reflexivity | lia].
  - destruct n as [|n]; str_norm.
    + simpl. f_equal. clear. induction s as [|d s IHs]; simpl;
        [reflexivity | now f_equal].
    + simpl. str_norm. f_equal. apply IH. lia.
Qed.

Lemma HasSuffix_spec (s suffix : string) :
  strings.HasSuffix s suffix = true <-> strings.EndsWith s suffix.
Proof.
  unfold strings.HasSuffix, strings.EndsWith. split.
  - intros H. apply andb_true_iff in H as [Hlen Heq].
    apply Nat.leb_le in Hlen. apply String.eqb_eq in Heq.
    exists (String.substring 0 (String.length s - String.length suffix) s).
    pose proof (substring_split (String.length s - String.length suffix) s
                  ltac:(lia)) as Hs.
    replace (String.length s - (String.length s - String.length suffix))%nat
      with (String.length suffix) in Hs by lia.
    now rewrite Heq in Hs.
  - intros [pre ->]. rewrite string_app_length. apply andb_true_iff. split.
    + apply Nat.leb_le. lia.
    + apply String.eqb_eq.
      replace (String.length pre + String.length suffix - String.length suffix)%nat
        with (String.length pre) by lia.
      apply substring_app_r.
Qed.

Lemma ContainsRune_Contains (s : string) (r : ascii) :
  strings.ContainsRune s r = true <-> strings.Contains s (String r "").
Proof.
  split.
  - intros H. apply ContainsRune_true_split in H as (a & b & -> & _).
    now exists a, b.
  - intros (pre & post & ->). rewrite ContainsRune_app. str_norm. simpl.
    rewrite Ascii.eqb_refl. simpl. apply orb_true_r.
Qed.

(** ** The exemption set *)

Lemma make_exclude_foldl (exceptions : list string) (init : gmap string bool)
    (method : string) :
  foldl (fun exclude e => <[e := true]> exclude) init exceptions !! method
  = if bool_decide (method ∈ exceptions) then Some true else init !! method.
Proof.
  revert init. induction exceptions as [|e es IH]; intros init; cbn [foldl].
  - rewrite bool_decide_eq_false_2; [reflexivity | apply not_elem_of_nil].
  - rewrite IH. destruct (decide (method ∈ es)) as [Hin|Hnin].
    + rewrite !bool_decide_eq_true_2; [reflexivity | now right | assumption].
    + rewrite (bool_decide_eq_false_2 _ Hnin).
      destruct (decide (method = e)) as [->|Hne].
      * rewrite lookup_insert_eq, bool_decide_eq_true_2; [reflexivity | left].
      * rewrite lookup_insert_ne by congruence.
        rewrite bool_decide_eq_false_2; [reflexivity|].
        intros Hin. apply elem_of_cons in Hin as [?|?]; congruence.
Qed.

Lemma exclude_lookup_exempt (exceptions : list string) (method : string) :
  method ∈ exceptions ->
  exclude_lookup (make_exclude exceptions) method = (true, true).
Proof.
  intros Hin. unfold exclude_lookup, make_exclude.
  now rewrite make_exclude_foldl, bool_decide_eq_true_2.
Qed.

Lemma exclude_lookup_not_exempt (exceptions : list string) (method : string) :
  method ∉ exceptions ->
  exclude_lookup (make_exclude exceptions) method = (false, false).
Proof.
  intros Hin. unfold exclude_lookup, make_exclude.
  now rewrite make_exclude_foldl, bool_decide_eq_false_2, lookup_empty.
Qed.

(** C7. A call to an exempt method, unary or streaming, goes to its handler
    with the context, the stream and the world it came with: [validate] does
    not run (the clock is not read, the store is not asked) and nothing is
    attached to the context. *)
Theorem exempt_call_forwarded_unmodified
    (P : Primitives) (Req Resp Srv : Type) (a : AuthService)
    (exceptions : list string) (info : ServerInfo)
    (ctx : Context) (req : Req) (handler : UnaryHandler Req Resp)
    (srv : Srv) (stream : ServerStream) (shandler : StreamHandler Srv)
    (w : World) :
  FullMethod info ∈ exceptions ->
  (newAuthInterceptors P Req Resp Srv a exceptions).1 ctx req info (Some handler) w
  = handler ctx req w
  /\ (newAuthInterceptors P Req Resp Srv a exceptions).2 srv stream info
       (Some shandler) w
     = shandler srv stream w.
Proof.
  intros Hin. unfold newAuthInterceptors, unaryInterceptor, streamInterceptor.
  cbn [fst snd]. rewrite (exclude_lookup_exempt _ _ Hin).
  now run_go.
Qed.

(** ** Calls without a bearer credential *)

Lemma validate_no_bearer (P : Primitives) (a : AuthService) (ctx : Context)
    (w : World) :
  no_bearer ctx ->
  exists format,
    validate P a ctx w = (inr (Unauthenticated format None), w).
Proof.
  unfold no_bearer, bearerString_of, validate.
  destruct (metadata.FromIncomingContext ctx) as [meta|]; [|now eexists].
  destruct (meta !! "authorization") as [[|bearerString rest]|];
    [now eexists | | now eexists].
  intros Hno. rewrite Split_no_occurrence by (assumption || discriminate).
  now eexists.
Qed.

(** C6, amended. A call to a method that is not exempt, whose metadata is
    missing, or has no [authorization] value, or has a first [authorization]
    value that does not contain ["Bearer "], is rejected with
    [Unauthenticated]; whatever the handler, the world is left as it was, so
    the handler has not run. *)
Theorem no_bearer_call_rejected
    (P : Primitives) (Req Resp Srv : Type) (a : AuthService)
    (exceptions : list string) (info : ServerInfo)
    (ctx : Context) (req : Req) (handler : option (UnaryHandler Req Resp))
    (srv : Srv) (stream : ServerStream) (shandler : option (StreamHandler Srv))
    (w : World) :
  FullMethod info ∉ exceptions ->
  no_bearer ctx ->
  no_bearer (stream_Context stream) ->
  (exists err,
      (newAuthInterceptors P Req Resp Srv a exceptions).1 ctx req info handler w
      = ((None, Some err), w)
      /\ status_Code err = Some codes.Unauthenticated)
  /\ (exists err,
      (newAuthInterceptors P Req Resp Srv a exceptions).2 srv stream info shandler w
      = (Some err, w)
      /\ status_Code err = Some codes.Unauthenticated).
Proof.
  intros Hnin Hctx Hstream.
  unfold newAuthInterceptors, unaryInterceptor, streamInterceptor.
  cbn [fst snd]. rewrite (exclude_lookup_not_exempt _ _ Hnin). cbn [negb andb].
  destruct (validate_no_bearer P a ctx w Hctx) as [f1 H1].
  destruct (validate_no_bearer P a (stream_Context stream) w Hstream) as [f2 H2].
  run_go. rewrite H1, H2. split; eexists; split; reflexivity.
Qed.

(** ** Tokens the library has signed *)

Lemma GetSigningMethod_Alg (m : jwt.SigningMethod) :
  jwt.GetSigningMethod (jwt.Alg m) = Some m.
Proof. now destruct m. Qed.

Lemma Header_alg (m : jwt.SigningMethod) (claims : MapClaims) :
  jwt.Header (jwt.NewWithClaims m claims) !! "alg" = Some (JStr (jwt.Alg m)).
Proof.
  cbn [jwt.Header jwt.NewWithClaims].
  rewrite lookup_insert_ne by discriminate.
  apply lookup_singleton_eq.
Qed.

Lemma SignedString_hmac (P : Primitives) (m : jwt.SigningMethod) (h : N)
    (claims : MapClaims) (key : string) :
  jwt.hmac_hash m = Some h ->
  jwt.SignedString P (jwt.NewWithClaims m claims) key
  = (jwt.SigningString P (jwt.NewWithClaims m claims) +:+ "."
       +:+ EncodeSegment P
             (hmac_Sum P h key (jwt.SigningString P (jwt.NewWithClaims m claims))),
     None).
Proof.
  intros Hh. unfold jwt.SignedString, jwt.Sign.
  cbn [jwt.Method jwt.NewWithClaims]. now rewrite Hh.
Qed.

Lemma hmac_hash_is_HMAC (m : jwt.SigningMethod) :
  jwt.is_HMAC m = true <-> exists h, jwt.hmac_hash m = Some h.
Proof.
  unfold jwt.is_HMAC. destruct (jwt.hmac_hash m) as [h|].
  - split; [now exists h | reflexivity].
  - split; [discriminate | now intros [h H]].
Qed.

Lemma SignedString_error (P : Primitives) (t : jwt.Token) (key : string) :
  (jwt.SignedString P t key).2 = None <-> jwt.is_HMAC (jwt.Method t) = true.
Proof.
  unfold jwt.SignedString, jwt.Sign, jwt.is_HMAC.
  destruct (jwt.hmac_hash (jwt.Method t)); [now split|].
  destruct (jwt.Method t); now split.
Qed.

(** A token that has been signed without an error has an HMAC method. *)
Lemma SignedString_ok_hmac (P : Primitives) (m : jwt.SigningMethod)
    (claims : MapClaims) (key tok : string) :
  jwt.SignedString P (jwt.NewWithClaims m claims) key = (tok, None) ->
  exists h, jwt.hmac_hash m = Some h.
Proof.
  intros Hsigned. apply hmac_hash_is_HMAC.
  change m with (jwt.Method (jwt.NewWithClaims m claims)).
  apply (SignedString_error P _ key). now rewrite Hsigned.
Qed.

Lemma Split_three_segments (a b c : string) :
  segment_ok a -> segment_ok b -> segment_ok c ->
  strings.Split ((a +:+ "." +:+ b) +:+ "." +:+ c) "." = [a; b; c].
Proof.
  intros [Ha _] [Hb _] [Hc _].
  rewrite string_app_assoc. str_norm.
  rewrite (Split_first_byte "." a _ Ha).
  rewrite (Split_first_byte "." b _ Hb).
  now rewrite (Split_no_byte "." c Hc).
Qed.

Lemma ParseUnverified_signed (P : Primitives) (m : jwt.SigningMethod) (h : N)
    (claims : MapClaims) (key tok : string) :
  jwt.hmac_hash m = Some h ->
  round_trips P (jwt.NewWithClaims m claims) h key ->
  jwt.SignedString P (jwt.NewWithClaims m claims) key = (tok, None) ->
  let t := jwt.NewWithClaims m claims in
  let hseg := EncodeJSONSegment P (jwt.Header t) in
  let cseg := EncodeJSONSegment P claims in
  let sseg := EncodeSegment P (hmac_Sum P h key (hseg +:+ "." +:+ cseg)) in
  jwt.ParseUnverified P tok
  = inl ({| jwt.Raw := tok; jwt.Method := m; jwt.Header := jwt.Header t;
            jwt.Claims := claims; jwt.Signature := ""; jwt.Valid := false |},
         (hseg, cseg, sseg)).
Proof.
  intros Hh (Hs1 & Hs2 & Hs3 & Hd1 & Hd2 & _) Hsigned.
  rewrite (SignedString_hmac P m h claims key Hh) in Hsigned.
  injection Hsigned as <-. cbv zeta.
  unfold jwt.ParseUnverified, jwt.SigningString.
  cbn [jwt.Claims jwt.NewWithClaims] in *.
  rewrite Split_three_segments by assumption.
  rewrite Hd1, Hd2, Header_alg.
  now rewrite GetSigningMethod_Alg.
Qed.

Lemma Verify_signed (P : Primitives) (m : jwt.SigningMethod) (h : N)
    (claims : MapClaims) (key : string) :
  jwt.hmac_hash m = Some h ->
  round_trips P (jwt.NewWithClaims m claims) h key ->
  let t := jwt.NewWithClaims m claims in
  let hseg := EncodeJSONSegment P (jwt.Header t) in
  let cseg := EncodeJSONSegment P claims in
  jwt.Verify P m (hseg +:+ "." +:+ cseg)
    (EncodeSegment P (hmac_Sum P h key (hseg +:+ "." +:+ cseg))) key
  = None.
Proof.
  intros Hh (_ & _ & _ & _ & _ & Hd3). cbv zeta.
  unfold jwt.Verify. rewrite Hh.
  cbn [jwt.Header jwt.Claims jwt.NewWithClaims] in *.
  rewrite Hd3. now rewrite String.eqb_refl.
Qed.

Lemma Contains_ContainsRune (s sub : string) (r : ascii) :
  strings.Contains s sub -> strings.ContainsRune sub r = true ->
  strings.ContainsRune s r = true.
Proof.
  intros (pre & post & ->) Hsub.
  rewrite !ContainsRune_app, Hsub. now rewrite orb_true_r.
Qed.

Lemma signed_token_no_bearer (P : Primitives) (m : jwt.SigningMethod) (h : N)
    (claims : MapClaims) (key tok : string) :
  jwt.hmac_hash m = Some h ->
  round_trips P (jwt.NewWithClaims m claims) h key ->
  jwt.SignedString P (jwt.NewWithClaims m claims) key = (tok, None) ->
  ~ strings.Contains tok "Bearer ".
Proof.
  intros Hh ([_ Hs1] & [_ Hs2] & [_ Hs3] & _) Hsigned Hc.
  rewrite (SignedString_hmac P m h claims key Hh) in Hsigned.
  injection Hsigned as <-.
  pose proof (Contains_ContainsRune _ _ " " Hc eq_refl) as Hsp.
  unfold jwt.SigningString in Hsp.
  rewrite !ContainsRune_app in Hsp.
  cbn [jwt.Claims jwt.NewWithClaims] in *.
  rewrite Hs1, Hs2, Hs3 in Hsp. discriminate.
Qed.

(** The gate accepts a token signed with the configured key by any HMAC
    method, when its claims are valid at both looks at the clock and name a
    user of the store. *)
Lemma validate_accepts_signed (P : Primitives) (a : AuthService)
    (ctx : Context) (meta : gmap string (list string)) (rest : list string)
    (m : jwt.SigningMethod) (h : N) (claims : MapClaims)
    (tok uid : string) (u : User) (w : World) :
  incoming ctx = Some meta ->
  meta !! "authorization" = Some (("Bearer " +:+ tok) :: rest) ->
  jwt.hmac_hash m = Some h ->
  round_trips P (jwt.NewWithClaims m claims) h (Key (jwt a)) ->
  jwt.SignedString P (jwt.NewWithClaims m claims) (Key (jwt a)) = (tok, None) ->
  claims !! claimUser = Some (JStr uid) ->
  uid <> "" ->
  wusers w !! uid = Some u ->
  jwt.MapClaims_Valid_at (time.Unix (wclock w (wtick w))) claims = None ->
  jwt.MapClaims_Valid_at (time.Unix (wclock w (S (wtick w)))) claims = None ->
  validate P a ctx w
  = (inl (ctxSetUser (ctxSetClaims ctx claims) (Some u)), after_validate w uid).
Proof.
  intros Hctx Hmeta Hh Hrt Hsigned Hid Huid Hu Hv1 Hv2.
  unfold validate, metadata.FromIncomingContext. rewrite Hctx, Hmeta.
  rewrite Split_leading_sep by discriminate.
  rewrite Split_no_occurrence
    by (discriminate || eapply signed_token_no_bearer; eassumption).
  unfold jwt.Parse.
  rewrite (ParseUnverified_signed P m h claims _ tok Hh Hrt Hsigned).
  pose proof (Verify_signed P m h claims _ Hh Hrt) as Hver. cbv zeta in Hver.
  unfold validate_keyFunc, jwt.MapClaims_Valid, users.FindByUserName,
    time_Now, log_event, get_users.
  run_go. go_cbn. rewrite Hv1, Hid.
  apply String.eqb_neq in Huid. rewrite Huid. go_cbn.
  rewrite Hu. go_cbn. rewrite Hv2, Hver.
  reflexivity.
Qed.

(** ** The gate and the signing algorithm *)

(** C1. The gate does not compare the algorithm of the token's header with
    the configured one: a call to a method that is not exempt, carrying a
    token signed with the configured key by an HMAC method other than the
    configured algorithm, reaches its handler, with the user of the token
    attached. *)
Theorem gate_accepts_other_hmac_algorithm
    (P : Primitives) (Req Resp Srv : Type) (a : AuthService)
    (exceptions : list string) (info : ServerInfo)
    (ctx : Context) (req : Req) (handler : UnaryHandler Req Resp)
    (meta : gmap string (list string)) (rest : list string)
    (m : jwt.SigningMethod) (h : N) (claims : MapClaims)
    (tok uid : string) (u : User) (w : World) :
  FullMethod info ∉ exceptions ->
  m <> SigningAlgo (jwt a) ->
  incoming ctx = Some meta ->
  meta !! "authorization" = Some (("Bearer " +:+ tok) :: rest) ->
  jwt.hmac_hash m = Some h ->
  round_trips P (jwt.NewWithClaims m claims) h (Key (jwt a)) ->
  jwt.SignedString P (jwt.NewWithClaims m claims) (Key (jwt a)) = (tok, None) ->
  claims !! claimUser = Some (JStr uid) ->
  uid <> "" ->
  wusers w !! uid = Some u ->
  jwt.MapClaims_Valid_at (time.Unix (wclock w (wtick w))) claims = None ->
  jwt.MapClaims_Valid_at (time.Unix (wclock w (S (wtick w)))) claims = None ->
  validate P a ctx w
  = (inl (ctxSetUser (ctxSetClaims ctx claims) (Some u)), after_validate w uid)
  /\ (newAuthInterceptors P Req Resp Srv a exceptions).1 ctx req info
       (Some handler) w
     = handler (ctxSetUser (ctxSetClaims ctx claims) (Some u)) req
         (after_validate w uid).
Proof.
  intros Hnin _ Hctx Hmeta Hh Hrt Hsigned Hid Huid Hu Hv1 Hv2.
  pose proof (validate_accepts_signed P a ctx meta rest m h claims tok uid u w
                Hctx Hmeta Hh Hrt Hsigned Hid Huid Hu Hv1 Hv2) as Hval.
  split; [exact Hval|].
  unfold newAuthInterceptors, unaryInterceptor. cbn [fst].
  rewrite (exclude_lookup_not_exempt _ _ Hnin). cbn [negb andb].
  run_go. now rewrite Hval.
Qed.

Lemma toy_round_trips (m : jwt.SigningMethod) (h : N) (claims : MapClaims) :
  In (jwt.Header (jwt.NewWithClaims m claims)) Toy.universe ->
  In claims Toy.universe ->
  (forall x, In x Toy.universe ->
     segment_ok (Toy.encode x) /\ Toy.decode (Toy.encode x) = inl x) ->
  segment_ok (hmac_Sum Toy.P h "secret"
                (Toy.encode (jwt.Header (jwt.NewWithClaims m claims))
                   +:+ "." +:+ Toy.encode claims)) ->
  round_trips Toy.P (jwt.NewWithClaims m claims) h "secret".
Proof.
  intros Hh Hc Hall Hmac. unfold round_trips.
  cbn [EncodeJSONSegment DecodeJSONSegment EncodeSegment DecodeSegment Toy.P
       jwt.Claims].
  destruct (Hall _ Hh) as [? ?], (Hall _ Hc) as [? ?].
  change (jwt.Claims (jwt.NewWithClaims m claims)) with claims.
  split; [assumption|]. split; [assumption|]. split; [exact Hmac|].
  split; [assumption|]. split; [assumption | reflexivity].
Qed.

Lemma toy_universe_ok (x : gmap string JSON) :
  In x Toy.universe ->
  segment_ok (Toy.encode x) /\ Toy.decode (Toy.encode x) = inl x.
Proof.
  intros Hin.
  assert (forallb toy_entry_ok Toy.universe = true) as Hall
    by (vm_compute; reflexivity).
  rewrite forallb_forall in Hall. specialize (Hall x Hin).
  unfold toy_entry_ok in Hall.
  apply andb_true_iff in Hall as [Hall Hdec].
  apply andb_true_iff in Hall as [Hdot Hsp].
  apply negb_true_iff in Hdot, Hsp.
  split; [now split|].
  destruct (Toy.decode (Toy.encode x)) as [y|]; [|discriminate].
  apply bool_decide_eq_true in Hdec. now subst.
Qed.

Lemma gate_accepts_other_hmac_algorithm_witness :
  (newAuthInterceptors Toy.P unit string unit Toy.a ["/auth.TemporalAuth/Login"]).1
    (Toy.call ("Bearer " +:+ Toy.session_token jwt.HS256 "bob")) tt
    {| FullMethod := "/auth.TemporalAuth/Account" |} (Some Toy.whoami)
    (Toy.world [] 1000 Toy.store)
  = ((Some "bob", None), after_validate (Toy.world [] 1000 Toy.store) "bob").
Proof.
  refine (eq_trans
    (proj2 (gate_accepts_other_hmac_algorithm Toy.P unit string unit Toy.a
       ["/auth.TemporalAuth/Login"] {| FullMethod := "/auth.TemporalAuth/Account" |}
       (Toy.call ("Bearer " +:+ Toy.session_token jwt.HS256 "bob")) tt Toy.whoami
       {[ "authorization" := ["Bearer " +:+ Toy.session_token jwt.HS256 "bob"] ]} []
       jwt.HS256 256%N (Toy.session "bob" 4600 1000)
       (Toy.session_token jwt.HS256 "bob") "bob" Toy.bob
       (Toy.world [] 1000 Toy.store)
       _ _ _ _ _ _ _ _ _ _ _ _)) _).
  - intros Hin. apply list_elem_of_In in Hin. cbn in Hin. intuition discriminate.
  - discriminate.
  - reflexivity.
  - reflexivity.
  - reflexivity.
  - apply toy_round_trips; [cbn; tauto | cbn; tauto | apply toy_universe_ok|].
    vm_compute. split; reflexivity.
  - reflexivity.
  - reflexivity.
  - discriminate.
  - reflexivity.
  - reflexivity.
  - reflexivity.
  - reflexivity.
Defined.

(** ** Session tokens *)

Lemma signAPIToken_run (P : Primitives) (a : AuthService) (user : string)
    (w : World) :
  signAPIToken P a user w
  = let signed :=
      jwt.SignedString P
        (jwt.NewWithClaims (SigningAlgo (jwt a)) (session_claims a user w))
        (Key (jwt a)) in
    ((time.Unix (time.Add (wclock w (wtick w)) (Timeout (jwt a))),
      signed.1, signed.2),
     {| wclock := wclock w; wtick := S (S (wtick w));
        wusers := wusers w; wlog := wlog w |}).
Proof.
  unfold signAPIToken, time_Now, session_claims. run_go. go_cbn.
  now destruct (jwt.SignedString _ _ _).
Qed.

Lemma session_claims_lookup (a : AuthService) (user : string) (w : World) :
  session_claims a user w !! claimUser = Some (JStr user)
  /\ session_claims a user w !! claimExpiry
     = Some (JNum (time.Unix (time.Add (wclock w (wtick w)) (Timeout (jwt a)))))
  /\ session_claims a user w !! claimOrigAt
     = Some (JNum (time.Unix (wclock w (S (wtick w)))))
  /\ session_claims a user w !! "iat" = None
  /\ session_claims a user w !! "nbf" = None.
Proof.
  unfold session_claims, claimUser, claimExpiry, claimOrigAt.
  repeat split; now simplify_map_eq.
Qed.

Lemma Unix_mono (t t' : time.Time) : t <= t' -> time.Unix t <= time.Unix t'.
Proof. intros H. unfold time.Unix, time.Second. apply Z.div_le_mono; lia. Qed.

(** A session token passes [Valid] at every instant up to the one its expiry
    was computed from. *)
Lemma session_claims_valid (a : AuthService) (user : string) (w : World)
    (t : time.Time) :
  t <= time.Add (wclock w (wtick w)) (Timeout (jwt a)) ->
  jwt.MapClaims_Valid_at (time.Unix t) (session_claims a user w) = None.
Proof.
  intros Ht. apply Unix_mono in Ht.
  destruct (session_claims_lookup a user w) as (_ & Hexp & _ & Hiat & Hnbf).
  unfold jwt.MapClaims_Valid_at, jwt.VerifyExpiresAt, jwt.VerifyIssuedAt,
    jwt.VerifyNotBefore.
  unfold claimExpiry in Hexp. rewrite Hexp, Hiat, Hnbf.
  unfold jwt.verifyExp.
  destruct (_ =? 0); [reflexivity|].
  apply Z.leb_le in Ht. now rewrite Ht.
Qed.

(** A session token passes [Valid] in every second up to its expiry. *)
Lemma session_claims_valid_until (a : AuthService) (user : string) (w : World)
    (now : Z) :
  now <= time.Unix (time.Add (wclock w (wtick w)) (Timeout (jwt a))) ->
  jwt.MapClaims_Valid_at now (session_claims a user w) = None.
Proof.
  intros Ht.
  destruct (session_claims_lookup a user w) as (_ & Hexp & _ & Hiat & Hnbf).
  unfold jwt.MapClaims_Valid_at, jwt.VerifyExpiresAt, jwt.VerifyIssuedAt,
    jwt.VerifyNotBefore.
  unfold claimExpiry in Hexp. rewrite Hexp, Hiat, Hnbf.
  unfold jwt.verifyExp.
  destruct (Z.eqb _ 0); [reflexivity|].
  apply Z.leb_le in Ht. now rewrite Ht.
Qed.

(** C4. For every user identifier of the store, which [Login] and
    [Register] take care is not empty before they sign, and a signing
    configuration with a positive timeout, the token [signAPIToken] issues
    is accepted by [validate] when it is presented as a bearer credential up
    to the expiry [signAPIToken] reports with it, which the instant of issue
    does not exceed: [validate] returns a context holding that user and
    claims whose identity is the identifier. *)
Theorem session_token_validates
    (P : Primitives) (a : AuthService) (U : string) (u : User)
    (w0 : World) (expire : Z) (tok : string)
    (ctx : Context) (meta : gmap string (list string)) (rest : list string)
    (w : World) :
  0 < Timeout (jwt a) ->
  U <> "" ->
  wusers w !! U = Some u ->
  (signAPIToken P a U w0).1 = (expire, tok, None) ->
  (forall h, jwt.hmac_hash (SigningAlgo (jwt a)) = Some h ->
             round_trips P
               (jwt.NewWithClaims (SigningAlgo (jwt a)) (session_claims a U w0))
               h (Key (jwt a))) ->
  incoming ctx = Some meta ->
  meta !! "authorization" = Some (("Bearer " +:+ tok) :: rest) ->
  time.Unix (wclock w (wtick w)) <= expire ->
  time.Unix (wclock w (S (wtick w))) <= expire ->
  time.Unix (wclock w0 (wtick w0)) <= expire
  /\ exists ctx' claims,
       (validate P a ctx w).1 = inl ctx'
       /\ userValue ctx' = Some u
       /\ claimsValue ctx' = Some claims
       /\ claims !! claimUser = Some (JStr U).
Proof.
  intros Hpos HU Hu Hsign Hrt Hctx Hmeta Ht1 Ht2.
  rewrite signAPIToken_run in Hsign. cbv zeta in Hsign. cbn [fst] in Hsign.
  assert (jwt.SignedString P
            (jwt.NewWithClaims (SigningAlgo (jwt a)) (session_claims a U w0))
            (Key (jwt a)) = (tok, None)
          /\ expire = time.Unix (time.Add (wclock w0 (wtick w0)) (Timeout (jwt a))))
    as [Hsigned ->].
  { destruct (jwt.SignedString _ _ _) as [s e]. cbn [fst snd] in Hsign.
    split; congruence. }
  split; [apply Unix_mono; unfold time.Add; lia|].
  destruct (SignedString_ok_hmac P _ _ _ _ Hsigned) as [h Hh].
  destruct (session_claims_lookup a U w0) as (Hid & _).
  rewrite (validate_accepts_signed P a ctx meta rest (SigningAlgo (jwt a)) h
             (session_claims a U w0) tok U u w Hctx Hmeta Hh (Hrt h Hh)
             Hsigned Hid HU Hu
             (session_claims_valid_until a U w0 _ Ht1)
             (session_claims_valid_until a U w0 _ Ht2)).
  exists (ctxSetUser (ctxSetClaims ctx (session_claims a U w0)) (Some u)),
    (session_claims a U w0).
  split; [reflexivity|]. split; [reflexivity|]. split; [reflexivity | exact Hid].
Qed.

Lemma session_token_validates_witness :
  time.Unix (wclock (Toy.world [] 1000 Toy.store)
               (wtick (Toy.world [] 1000 Toy.store))) <= 4600
  /\ exists ctx' claims,
       (validate Toy.P Toy.a
          (Toy.call ("Bearer " +:+ Toy.session_token jwt.HS512 "bob"))
          (Toy.world [] 4600 Toy.store)).1 = inl ctx'
       /\ userValue ctx' = Some Toy.bob
       /\ claimsValue ctx' = Some claims
       /\ claims !! claimUser = Some (JStr "bob").
Proof.
  refine (session_token_validates Toy.P Toy.a "bob" Toy.bob
            (Toy.world [] 1000 Toy.store) 4600
            (Toy.session_token jwt.HS512 "bob")
            (Toy.call ("Bearer " +:+ Toy.session_token jwt.HS512 "bob"))
            {[ "authorization" := ["Bearer " +:+ Toy.session_token jwt.HS512 "bob"] ]}
            [] (Toy.world [] 4600 Toy.store) _ _ _ _ _ _ _ _ _).
  - reflexivity.
  - discriminate.
  - reflexivity.
  - vm_compute. reflexivity.
  - intros h [= <-].
    assert (session_claims Toy.a "bob" (Toy.world [] 1000 Toy.store)
            = Toy.session "bob" 4600 1000) as -> by (vm_compute; reflexivity).
    apply toy_round_trips; [cbn; tauto | cbn; tauto | apply toy_universe_ok|].
    vm_compute. split; reflexivity.
  - reflexivity.
  - reflexivity.
  - vm_compute. discriminate.
  - vm_compute. discriminate.
Defined.

(** The identifier has to be one the handlers let through: were the empty
    string signed for, [validate] would refuse the token, although the store
    held a user of that name. *)
Lemma empty_identifier_token_rejected :
  let w := Toy.world [] 1000 Toy.store in
  wusers w !! "" = Some Toy.anonymous
  /\ exists tok,
       (signAPIToken Toy.P Toy.a "" w).1 = (4600, tok, None)
       /\ (validate Toy.P Toy.a (Toy.call ("Bearer " +:+ tok)) w).1
          = inr (Unauthenticated "invalid key: %v"
                   (Some (jwt_ValidationError
                            (Some (Unauthenticated
                                     "invalid user associated with token" None))
                            jwt.ValidationErrorUnverifiable ""))).
Proof.
  cbv zeta. split; [reflexivity|].
  exists (Toy.session_token jwt.HS512 "").
  split; vm_compute; reflexivity.
Qed.

(** C9, amended. [signAPIToken] reads the clock twice: the expiry is the
    whole second of the first reading plus the timeout, the time of issue the
    whole second of the second reading. For a timeout of [k] whole seconds,
    [exp = orig_iat + k] holds exactly when both readings fall in the same
    second. *)
Theorem session_token_expiry
    (P : Primitives) (a : AuthService) (user : string) (w : World) (k : Z) :
  Timeout (jwt a) = k * time.Second ->
  exists expire iat : Z,
    let signed :=
      jwt.SignedString P
        (jwt.NewWithClaims (SigningAlgo (jwt a))
           {[ claimUser := JStr user; claimExpiry := JNum expire;
              claimOrigAt := JNum iat ]})
        (Key (jwt a)) in
    (signAPIToken P a user w).1 = (expire, signed.1, signed.2)
    /\ expire = time.Unix (wclock w (wtick w)) + k
    /\ iat = time.Unix (wclock w (S (wtick w)))
    /\ (expire = iat + k
        <-> time.Unix (wclock w (wtick w)) = time.Unix (wclock w (S (wtick w)))).
Proof.
  intros Hk.
  exists (time.Unix (time.Add (wclock w (wtick w)) (Timeout (jwt a)))),
    (time.Unix (wclock w (S (wtick w)))).
  cbv zeta. rewrite signAPIToken_run. cbv zeta. cbn [fst].
  split; [reflexivity|].
  assert (time.Unix (time.Add (wclock w (wtick w)) (Timeout (jwt a)))
          = time.Unix (wclock w (wtick w)) + k) as ->.
  { unfold time.Unix, time.Add. rewrite Hk.
    apply Z.div_add. unfold time.Second. lia. }
  split; [reflexivity|]. split; [reflexivity|]. lia.
Qed.

Lemma session_token_expiry_witness :
  exists expire iat : Z,
    (signAPIToken Toy.P Toy.a "bob" (Toy.world [] 1000 Toy.store)).1.1.1 = expire
    /\ expire = 1000 + 3600 /\ iat = 1000 /\ expire = iat + 3600.
Proof.
  destruct (session_token_expiry Toy.P Toy.a "bob" (Toy.world [] 1000 Toy.store)
              3600 eq_refl) as (expire & iat & Hrun & Hexp & Hiat & Hiff).
  exists expire, iat. cbv zeta in Hrun. rewrite Hrun. cbn [fst].
  split; [reflexivity|].
  split; [rewrite Hexp; vm_compute; reflexivity|].
  split; [rewrite Hiat; vm_compute; reflexivity|].
  apply Hiff. vm_compute. reflexivity.
Defined.

(** C9 fails as stated when a second begins between the two readings of the
    clock: with a timeout of 3600 s, readings of 999.999999999 s and
    1000.000000001 s give [exp = 4599] and [orig_iat = 1000]. *)
Lemma session_token_expiry_counterexample :
  let w := Toy.world_ns [999999999999; 1000000000001] 1000000000001 Toy.store in
  Timeout (jwt Toy.a) = 3600 * time.Second
  /\ exists tok t parts,
       (signAPIToken Toy.P Toy.a "bob" w).1 = (4599, tok, None)
       /\ jwt.ParseUnverified Toy.P tok = inl (t, parts)
       /\ jwt.Claims t !! claimExpiry = Some (JNum 4599)
       /\ jwt.Claims t !! claimOrigAt = Some (JNum 1000)
       /\ 4599 <> 1000 + 3600.
Proof.
  cbv zeta. split; [reflexivity|].
  exists (jwt.SignedString Toy.P
            (jwt.NewWithClaims jwt.HS512 (Toy.session "bob" 4599 1000)) "secret").1.
  eexists. eexists.
  split; [vm_compute; reflexivity|].
  split; [vm_compute; reflexivity|].
  split; [vm_compute; reflexivity|].
  split; [vm_compute; reflexivity | lia].
Qed.

(** ** Challenge tokens *)

Lemma signChallengeToken_run (P : Primitives) (a : AuthService)
    (user challenge : string) (w : World) :
  signChallengeToken P a user challenge w
  = (jwt.SignedString P
       (jwt.NewWithClaims (SigningAlgo (jwt a))
          (challenge_claims P user challenge w))
       (Key (jwt a)),
     {| wclock := wclock w; wtick := S (S (wtick w));
        wusers := wusers w; wlog := wlog w |}).
Proof. reflexivity. Qed.

Lemma challenge_claims_lookup (P : Primitives) (user challenge : string)
    (w : World) :
  challenge_claims P user challenge w !! claimUser = Some (JStr user)
  /\ challenge_claims P user challenge w !! claimChallenge = Some (JStr challenge)
  /\ challenge_claims P user challenge w !! claimExpiry
     = Some (JStr (Time_String P
                     (time.Add (wclock w (wtick w)) (time.Hour * 24))))
  /\ challenge_claims P user challenge w !! "iat" = None
  /\ challenge_claims P user challenge w !! "nbf" = None.
Proof.
  unfold challenge_claims, claimUser, claimChallenge, claimExpiry, claimOrigAt.
  repeat split; now simplify_map_eq.
Qed.

(** C2. The [exp] claim of a challenge token is not a number of seconds: it
    is the text [Time.String] gives for the instant 24 hours after the first
    look at the clock, where [signAPIToken] stores the number [Time.Unix]
    gives. *)
Theorem challenge_token_expiry_is_text
    (P : Primitives) (a : AuthService) (user challenge : string) (w : World) :
  exists claims : MapClaims,
    (signChallengeToken P a user challenge w).1
    = jwt.SignedString P
        (jwt.NewWithClaims (SigningAlgo (jwt a)) claims) (Key (jwt a))
    /\ claims !! claimExpiry
       = Some (JStr (Time_String P
                       (time.Add (wclock w (wtick w)) (time.Hour * 24))))
    /\ forall n : Z, claims !! claimExpiry <> Some (JNum n).
Proof.
  exists (challenge_claims P user challenge w).
  destruct (challenge_claims_lookup P user challenge w) as (_ & _ & Hexp & _).
  split; [reflexivity|]. split; [exact Hexp|].
  intros n. rewrite Hexp. discriminate.
Qed.

(** ** The order of the checks in [validate] *)

(** C10. The claim check, the extraction of the user and the lookup in the
    store run in the key-lookup closure, before the signature is verified:
    for a token of proper structure whose claims are valid and name a
    non-empty user, [validate] asks the store for that user whatever the
    signature is; when the signature does not verify, the call is rejected
    all the same, after the lookup. *)
Theorem lookup_precedes_signature_check
    (P : Primitives) (a : AuthService) (ctx : Context)
    (bearerString x tokenString : string) (more : list string)
    (t : jwt.Token) (p0 p1 p2 uid : string) (w : World) :
  bearerString_of ctx = Some bearerString ->
  strings.Split bearerString "Bearer " = x :: tokenString :: more ->
  jwt.ParseUnverified P tokenString = inl (t, (p0, p1, p2)) ->
  jwt.MapClaims_Valid_at (time.Unix (wclock w (wtick w))) (jwt.Claims t) = None ->
  jwt.Claims t !! claimUser = Some (JStr uid) ->
  uid <> "" ->
  wlog (validate P a ctx w).2 = (wlog w ++ [EvFindByUserName uid])%list
  /\ (jwt.Verify P (jwt.Method t) (p0 +:+ "." +:+ p1) p2 (Key (jwt a)) <> None ->
      exists err,
        (validate P a ctx w).1 = inr err
        /\ status_Code err = Some codes.Unauthenticated).
Proof.
  intros Hb Hsplit Hparse Hvalid Hid Huid.
  unfold bearerString_of in Hb. unfold validate.
  destruct (metadata.FromIncomingContext ctx) as [meta|]; [|discriminate].
  destruct (meta !! "authorization") as [[|b rest]|]; try discriminate.
  injection Hb as ->. rewrite Hsplit.
  unfold jwt.Parse. rewrite Hparse.
  unfold validate_keyFunc, jwt.MapClaims_Valid, users.FindByUserName,
    time_Now, log_event, get_users.
  run_go. go_cbn. rewrite Hvalid, Hid.
  apply String.eqb_neq in Huid. rewrite Huid. go_cbn.
  destruct (wusers w !! uid) as [u|]; go_cbn.
  - destruct (jwt.Verify P (jwt.Method t) (p0 +:+ "." +:+ p1) p2 (Key (jwt a)))
      as [verr|] eqn:Hver.
    + assert (forall v : jwt.vErr,
                 jwt.vErr_valid
                   {| jwt.Inner := Some verr;
                      jwt.Errors := N.lor (jwt.Errors v)
                                      jwt.ValidationErrorSignatureInvalid |}
                 = false) as Hflag.
      { intros v. unfold jwt.vErr_valid. cbn [jwt.Errors].
        apply N.eqb_neq. intros H0. apply N.lor_eq_0_iff in H0 as [_ H0].
        discriminate. }
      rewrite Hflag. go_cbn. split; [reflexivity|].
      intros _. eexists. split; reflexivity.
    + split; [|congruence].
      destruct (jwt.vErr_valid _); go_cbn; reflexivity.
  - split; [reflexivity|]. intros _. eexists. split; reflexivity.
Qed.

Lemma lookup_precedes_signature_check_witness :
  let r := validate Toy.P Toy.a (Toy.call ("Bearer " +:+ forged_token))
             (Toy.world [] 1000 Toy.store) in
  wlog r.2 = [EvFindByUserName "bob"]
  /\ exists err, r.1 = inr err /\ status_Code err = Some codes.Unauthenticated.
Proof.
  cbv zeta.
  destruct (lookup_precedes_signature_check Toy.P Toy.a
              (Toy.call ("Bearer " +:+ forged_token))
              ("Bearer " +:+ forged_token) "" forged_token []
              {| jwt.Raw := forged_token; jwt.Method := jwt.HS512;
                 jwt.Header := Toy.header "HS512";
                 jwt.Claims := Toy.session "bob" 4600 1000;
                 jwt.Signature := ""; jwt.Valid := false |}
              (Toy.encode (Toy.header "HS512"))
              (Toy.encode (Toy.session "bob" 4600 1000))
              (hmac_Sum Toy.P 512 "secret"
                 (Toy.encode (Toy.header "HS512") +:+ "."
                    +:+ Toy.encode (Toy.session "bob" 4600 1000)) +:+ "x")
              "bob" (Toy.world [] 1000 Toy.store))
    as [Hlog Hrej].
  - reflexivity.
  - vm_compute. reflexivity.
  - vm_compute. reflexivity.
  - vm_compute. reflexivity.
  - vm_compute. reflexivity.
  - discriminate.
  - split; [exact Hlog|]. apply Hrej. vm_compute. discriminate.
Defined.

(** ** Redeeming challenge tokens *)

Lemma string_app_cons_neq_nil (x : string) (c : ascii) (y : string) :
  String.eqb (x +:+ String c y) "" = false.
Proof. apply String.eqb_neq. now destruct x. Qed.

Lemma signed_token_not_empty (P : Primitives) (m : jwt.SigningMethod) (h : N)
    (claims : MapClaims) (key tok : string) :
  jwt.hmac_hash m = Some h ->
  jwt.SignedString P (jwt.NewWithClaims m claims) key = (tok, None) ->
  String.eqb tok "" = false.
Proof.
  intros Hh Hsigned. rewrite (SignedString_hmac P m h claims key Hh) in Hsigned.
  injection Hsigned as <-. str_norm. apply string_app_cons_neq_nil.
Qed.

Lemma is_HMAC_hash (m : jwt.SigningMethod) (h : N) :
  jwt.hmac_hash m = Some h -> jwt.is_HMAC m = true.
Proof. unfold jwt.is_HMAC. now intros ->. Qed.

(** The endpoint accepts a token signed with the configured key and
    algorithm, whose claims are valid at both looks at the clock and carry
    the user of the request and that user's active verification value. *)
Lemma redeem_accepts_signed (P : Primitives) (a : AuthService) (r : Request)
    (h : N) (claims : MapClaims) (user tok : string) (u : User) (w : World) :
  Query_Get r "user" = user ->
  Query_Get r "token" = tok ->
  user <> "" ->
  jwt.hmac_hash (SigningAlgo (jwt a)) = Some h ->
  round_trips P (jwt.NewWithClaims (SigningAlgo (jwt a)) claims) h
    (Key (jwt a)) ->
  jwt.SignedString P (jwt.NewWithClaims (SigningAlgo (jwt a)) claims)
    (Key (jwt a)) = (tok, None) ->
  claims !! claimUser = Some (JStr user) ->
  claims !! claimChallenge = Some (JStr (EmailVerificationToken u)) ->
  wusers w !! user = Some u ->
  jwt.MapClaims_Valid_at (time.Unix (wclock w (wtick w))) claims = None ->
  jwt.MapClaims_Valid_at (time.Unix (wclock w (S (wtick w)))) claims = None ->
  VerificationHandler P a r w = (MsgOK "user verified", after_redeem w user u).
Proof.
  intros Hqu Hqt Huser Hh Hrt Hsigned Hid Hch Hu Hv1 Hv2.
  unfold VerificationHandler. rewrite Hqu, Hqt.
  apply String.eqb_neq in Huser. rewrite Huser.
  rewrite (signed_token_not_empty P _ h claims _ tok Hh Hsigned).
  cbn [orb]. unfold jwt.Parse.
  rewrite (ParseUnverified_signed P _ h claims _ tok Hh Hrt Hsigned).
  pose proof (Verify_signed P _ h claims _ Hh Hrt) as Hver. cbv zeta in Hver.
  unfold verification_keyFunc, jwt.MapClaims_Valid,
    users.FindByUserName, users.ValidateEmailVerificationToken,
    time_Now, log_event, get_users, set_users.
  run_go. go_cbn.
  rewrite (is_HMAC_hash _ h Hh). cbn [negb].
  rewrite bool_decide_eq_true_2 by reflexivity. cbn [negb]. go_cbn.
  rewrite Hv1, Hver. cbn [jwt.vErr_valid jwt.Errors N.eqb]. go_cbn.
  cbn [negb]. rewrite Hid, String.eqb_refl. cbn [negb]. go_cbn.
  rewrite Hv2. go_cbn. rewrite Hu, Hch, String.eqb_refl. cbn [negb]. go_cbn.
  rewrite Hu, String.eqb_refl.
  cbn [negb]. go_cbn. unfold after_redeem.
  now rewrite <- app_assoc.
Qed.

(** The claims of a challenge token pass [Valid] at every instant: their
    [exp] is text, which [VerifyExpiresAt] does not compare. *)
Lemma challenge_claims_valid (P : Primitives) (user challenge : string)
    (w : World) (now : Z) :
  jwt.MapClaims_Valid_at now (challenge_claims P user challenge w) = None.
Proof.
  destruct (challenge_claims_lookup P user challenge w)
    as (_ & _ & Hexp & Hiat & Hnbf).
  unfold jwt.MapClaims_Valid_at, jwt.VerifyExpiresAt, jwt.VerifyIssuedAt,
    jwt.VerifyNotBefore.
  unfold claimExpiry in Hexp. now rewrite Hexp, Hiat, Hnbf.
Qed.

(** C3. A challenge token never expires: the token [signChallengeToken]
    issued for a user is redeemed successfully in any world, whatever its
    clock reads, as long as the store still holds the verification value for
    that user. *)
Theorem challenge_token_never_expires
    (P : Primitives) (a : AuthService) (user : string) (u : User) (h : N)
    (w0 : World) (tok : string) (r : Request) (w : World) :
  user <> "" ->
  EmailVerificationToken u <> "" ->
  jwt.hmac_hash (SigningAlgo (jwt a)) = Some h ->
  (signChallengeToken P a user (EmailVerificationToken u) w0).1 = (tok, None) ->
  round_trips P
    (jwt.NewWithClaims (SigningAlgo (jwt a))
       (challenge_claims P user (EmailVerificationToken u) w0)) h
    (Key (jwt a)) ->
  Query_Get r "user" = user ->
  Query_Get r "token" = tok ->
  wusers w !! user = Some u ->
  (VerificationHandler P a r w).1 = MsgOK "user verified".
Proof.
  intros Huser Hc Hh Hsign Hrt Hqu Hqt Hu.
  rewrite signChallengeToken_run in Hsign. cbn [fst] in Hsign.
  destruct (challenge_claims_lookup P user (EmailVerificationToken u) w0)
    as (Hid & Hch & _).
  now rewrite (redeem_accepts_signed P a r h _ user tok u w Hqu Hqt Huser Hh Hrt
                 Hsign Hid Hch Hu
                 (challenge_claims_valid P _ _ w0 _)
                 (challenge_claims_valid P _ _ w0 _)).
Qed.

(** Redeemed 1000000 s after issue, when the 86400 s of its [exp] claim
    are long over. *)
Lemma challenge_token_never_expires_witness :
  (VerificationHandler Toy.P Toy.a (Toy.redeem "bob" challenge_token)
     (Toy.world [] 1001000 Toy.store)).1
  = MsgOK "user verified".
Proof.
  refine (challenge_token_never_expires Toy.P Toy.a "bob" Toy.bob 512%N
            (Toy.world [] 1000 Toy.store) challenge_token
            (Toy.redeem "bob" challenge_token)
            (Toy.world [] 1001000 Toy.store) _ _ _ _ _ _ _ _).
  - discriminate.
  - discriminate.
  - reflexivity.
  - vm_compute. reflexivity.
  - assert (challenge_claims Toy.P "bob" (EmailVerificationToken Toy.bob)
              (Toy.world [] 1000 Toy.store)
            = Toy.challenge "bob" "abc"
                (JStr (Toy.utc_string (87400 * time.Second))) 1000) as ->
      by (vm_compute; reflexivity).
    apply toy_round_trips; [cbn; tauto | cbn; tauto | apply toy_universe_ok|].
    vm_compute. split; reflexivity.
  - reflexivity.
  - reflexivity.
  - reflexivity.
Defined.

(** *** Redeeming twice *)

(** [Valid] reports a [ValidationError] with at least one bit set. *)
Lemma MapClaims_Valid_at_error (now : Z) (m : MapClaims) (err : error) :
  jwt.MapClaims_Valid_at now m = Some err ->
  exists inner flags, err = jwt_ValidationError inner flags "" /\ flags <> 0%N.
Proof.
  unfold jwt.MapClaims_Valid_at.
  destruct (jwt.vErr_valid _) eqn:Hv; [discriminate|].
  intros [= <-]. eexists _, _. split; [reflexivity|].
  unfold jwt.vErr_valid in Hv. now apply N.eqb_neq in Hv.
Qed.

Lemma signature_flag_invalid (verr : error) (v : jwt.vErr) :
  jwt.vErr_valid
    {| jwt.Inner := Some verr;
       jwt.Errors := N.lor (jwt.Errors v) jwt.ValidationErrorSignatureInvalid |}
  = false.
Proof.
  unfold jwt.vErr_valid. cbn [jwt.Errors].
  apply N.eqb_neq. intros H0. apply N.lor_eq_0_iff in H0 as [_ H0].
  discriminate.
Qed.

(** What an accepted redemption tells. *)
Lemma redeem_ok_inv (P : Primitives) (a : AuthService) (r : Request)
    (w w1 : World) (message : string) :
  VerificationHandler P a r w = (MsgOK message, w1) ->
  exists (t : jwt.Token) (p0 p1 p2 : string) (u : User),
    String.eqb (Query_Get r "user") "" = false
    /\ String.eqb (Query_Get r "token") "" = false
    /\ jwt.ParseUnverified P (Query_Get r "token") = inl (t, (p0, p1, p2))
    /\ jwt.is_HMAC (jwt.Method t) = true
    /\ jwt.Method t = SigningAlgo (jwt a)
    /\ jwt.Verify P (jwt.Method t) (p0 +:+ "." +:+ p1) p2 (Key (jwt a)) = None
    /\ jwt.Claims t !! claimUser = Some (JStr (Query_Get r "user"))
    /\ jwt.Claims t !! claimChallenge = Some (JStr (EmailVerificationToken u))
    /\ wusers w !! Query_Get r "user" = Some u
    /\ wusers w1 = <[Query_Get r "user" := users.consume u]> (wusers w).
Proof.
  unfold VerificationHandler.
  destruct (String.eqb (Query_Get r "user") "") eqn:Hu0; [discriminate|].
  destruct (String.eqb (Query_Get r "token") "") eqn:Ht0; [discriminate|].
  cbn [orb]. unfold jwt.Parse.
  destruct (jwt.ParseUnverified P (Query_Get r "token"))
    as [[t [[p0 p1] p2]]|perr] eqn:Hparse; [|discriminate].
  unfold verification_keyFunc, jwt.MapClaims_Valid,
    users.FindByUserName, users.ValidateEmailVerificationToken,
    time_Now, log_event, get_users, set_users.
  run_go. go_cbn.
  destruct (jwt.is_HMAC (jwt.Method t)) eqn:Hhmac; cbn [negb]; [|discriminate].
  destruct (bool_decide (jwt.Method t = SigningAlgo (jwt a))) eqn:Halg;
    cbn [negb]; [|discriminate].
  apply bool_decide_eq_true in Halg. go_cbn.
  destruct (jwt.Verify P (jwt.Method t) (p0 +:+ "." +:+ p1) p2 (Key (jwt a)))
    as [verr|] eqn:Hver.
  { rewrite signature_flag_invalid. discriminate. }
  destruct (jwt.vErr_valid _); go_cbn; [|discriminate].
  cbn [negb].
  destruct (jwt.Claims t !! claimUser) as [[| | |v]|] eqn:Hid;
    cbn [negb]; try discriminate.
  destruct (String.eqb v (Query_Get r "user")) eqn:Hv; cbn [negb]; [|discriminate].
  apply String.eqb_eq in Hv as ->. go_cbn.
  destruct (jwt.MapClaims_Valid_at _ _); [discriminate|]. go_cbn.
  destruct (wusers w !! Query_Get r "user") as [u|] eqn:Hfound; [|discriminate].
  destruct (jwt.Claims t !! claimChallenge) as [[| | |c]|] eqn:Hch;
    try discriminate.
  destruct (String.eqb c (EmailVerificationToken u)) eqn:Hc;
    cbn [negb]; [|discriminate].
  apply String.eqb_eq in Hc as ->. go_cbn. rewrite Hfound.
  rewrite String.eqb_refl. cbn [negb]. go_cbn.
  intros [= _ <-].
  exists t, p0, p1, p2, u. repeat split; assumption || reflexivity.
Qed.

(** Once a request has been accepted whose token carries a challenge that
    is not empty, the same request fails in every world whose store is the
    one the first redemption left: with [ErrBadRequest] when the claims of
    the token are still valid as the token is parsed, with
    [ErrUnauthorized] when they no longer are. *)
Lemma second_redemption_after_accept
    (P : Primitives) (a : AuthService) (r : Request)
    (w w1 w2 : World) (message : string) :
  VerificationHandler P a r w = (MsgOK message, w1) ->
  wusers w2 = wusers w1 ->
  claims_of P (Query_Get r "token") !! claimChallenge <> Some (JStr "") ->
  let claims := claims_of P (Query_Get r "token") in
  let second := VerificationHandler P a r w2 in
  (jwt.MapClaims_Valid_at (time.Unix (wclock w2 (wtick w2))) claims = None ->
   jwt.MapClaims_Valid_at (time.Unix (wclock w2 (S (wtick w2)))) claims = None ->
   second.1 = ErrBadRequest "challenge in token is incorrect")
  /\ (jwt.MapClaims_Valid_at (time.Unix (wclock w2 (wtick w2))) claims = None ->
      exists message', second.1 = ErrBadRequest message')
  /\ (jwt.MapClaims_Valid_at (time.Unix (wclock w2 (wtick w2))) claims <> None ->
      second.1 = ErrUnauthorized "invalid token")
  /\ wusers second.2 = wusers w2.
Proof.
  intros Hfirst Hstore Hne.
  destruct (redeem_ok_inv P a r w w1 message Hfirst)
    as (t & p0 & p1 & p2 & u & Hu0 & Ht0 & Hparse & Hhmac & Halg & Hver
        & Hid & Hch & Hfound & Hw1).
  cbv zeta. unfold claims_of in *. rewrite Hparse in *.
  assert (String.eqb (EmailVerificationToken u) "" = false) as Hc.
  { apply String.eqb_neq. intros Hc. rewrite Hch, Hc in Hne. now apply Hne. }
  unfold VerificationHandler. rewrite Hu0, Ht0. cbn [orb].
  unfold jwt.Parse. rewrite Hparse.
  unfold verification_keyFunc, jwt.MapClaims_Valid,
    users.FindByUserName, users.ValidateEmailVerificationToken,
    time_Now, log_event, get_users, set_users.
  run_go. go_cbn. rewrite Hhmac. cbn [negb].
  rewrite bool_decide_eq_true_2 by assumption. cbn [negb]. go_cbn.
  rewrite Hver.
  destruct (jwt.MapClaims_Valid_at (time.Unix (wclock w2 (wtick w2)))
              (jwt.Claims t)) as [cerr|] eqn:Hv1.
  - destruct (MapClaims_Valid_at_error _ _ _ Hv1) as (inner & flags & -> & Hflags).
    unfold jwt.vErr_valid. cbn [jwt.Errors].
    apply N.eqb_neq in Hflags. rewrite Hflags. go_cbn.
    split; [discriminate|]. split; [discriminate|]. split; reflexivity.
  - cbn [jwt.vErr_valid jwt.Errors N.eqb]. go_cbn. cbn [negb].
    rewrite Hid, String.eqb_refl. cbn [negb]. go_cbn.
    destruct (jwt.MapClaims_Valid_at
                (time.Unix (wclock w2 (S (wtick w2)))) (jwt.Claims t)).
    + split; [discriminate|]. split; [now eexists|].
      split; [congruence | reflexivity].
    + go_cbn. rewrite Hstore, Hw1, lookup_insert_eq, Hch.
      cbn [users.consume EmailVerificationToken].
      rewrite Hc. cbn [negb]. go_cbn.
      split; [reflexivity|]. split; [now eexists|].
      split; [congruence | reflexivity].
Qed.

(** C5. A challenge token is good for one redemption: once the endpoint has
    accepted a user together with the token [signChallengeToken] issued for
    that user's verification value, a value that is not empty, the store no
    longer reports that value for the user, and the same pair is refused
    with [ErrBadRequest] (400) in every world whose store is the one the
    first redemption left, whatever its clock reads; the refusal leaves the
    store as it is. *)
Theorem second_redemption_fails
    (P : Primitives) (a : AuthService) (user challenge : string)
    (w0 : World) (tok : string) (r : Request)
    (w w1 w2 : World) (message : string) :
  challenge <> "" ->
  (signChallengeToken P a user challenge w0).1 = (tok, None) ->
  (forall h, jwt.hmac_hash (SigningAlgo (jwt a)) = Some h ->
             round_trips P
               (jwt.NewWithClaims (SigningAlgo (jwt a))
                  (challenge_claims P user challenge w0)) h (Key (jwt a))) ->
  Query_Get r "user" = user ->
  Query_Get r "token" = tok ->
  VerificationHandler P a r w = (MsgOK message, w1) ->
  wusers w2 = wusers w1 ->
  (exists u1, wusers w1 !! user = Some u1
              /\ EmailVerificationToken u1 <> challenge)
  /\ (VerificationHandler P a r w2).1
     = ErrBadRequest "challenge in token is incorrect"
  /\ StatusCode (VerificationHandler P a r w2).1 = 400
  /\ wusers (VerificationHandler P a r w2).2 = wusers w2.
Proof.
  intros Hc Hsign Hrt Hqu Hqt Hfirst Hstore.
  split.
  { destruct (redeem_ok_inv P a r w w1 message Hfirst)
      as (_ & _ & _ & _ & u & _ & _ & _ & _ & _ & _ & _ & _ & _ & Hw1).
    exists (users.consume u). rewrite Hw1, Hqu. split; [apply lookup_insert_eq|].
    cbn [users.consume EmailVerificationToken]. congruence. }
  rewrite signChallengeToken_run in Hsign. cbn [fst] in Hsign.
  destruct (SignedString_ok_hmac P _ _ _ _ Hsign) as [h Hh].
  assert (claims_of P (Query_Get r "token")
          = challenge_claims P user challenge w0) as Hclaims.
  { unfold claims_of. rewrite Hqt.
    now rewrite (ParseUnverified_signed P _ h _ _ tok Hh (Hrt h Hh) Hsign). }
  destruct (challenge_claims_lookup P user challenge w0) as (_ & Hch & _).
  destruct (second_redemption_after_accept P a r w w1 w2 message Hfirst Hstore)
    as (Hbad & _ & _ & Hframe).
  { rewrite Hclaims, Hch. congruence. }
  cbv zeta in Hbad. rewrite Hclaims in Hbad.
  rewrite (Hbad (challenge_claims_valid P _ _ w0 _)
                (challenge_claims_valid P _ _ w0 _)).
  split; [reflexivity|]. split; [reflexivity | exact Hframe].
Qed.

Lemma second_redemption_fails_witness :
  let r := Toy.redeem "bob" challenge_token in
  let first := VerificationHandler Toy.P Toy.a r (Toy.world [] 2000 Toy.store) in
  let second :=
    VerificationHandler Toy.P Toy.a r (Toy.world [] 3000 (wusers first.2)) in
  first.1 = MsgOK "user verified"
  /\ (exists u1, wusers first.2 !! "bob" = Some u1
                 /\ EmailVerificationToken u1 <> "abc")
  /\ second.1 = ErrBadRequest "challenge in token is incorrect"
  /\ StatusCode second.1 = 400
  /\ wusers second.2 = wusers first.2.
Proof.
  cbv zeta. split; [vm_compute; reflexivity|].
  refine (second_redemption_fails Toy.P Toy.a "bob" "abc"
            (Toy.world [] 1000 Toy.store) challenge_token
            (Toy.redeem "bob" challenge_token)
            (Toy.world [] 2000 Toy.store)
            (VerificationHandler Toy.P Toy.a
               (Toy.redeem "bob" challenge_token)
               (Toy.world [] 2000 Toy.store)).2
            (Toy.world [] 3000
               (wusers (VerificationHandler Toy.P Toy.a
                          (Toy.redeem "bob" challenge_token)
                          (Toy.world [] 2000 Toy.store)).2))
            "user verified" _ _ _ _ _ _ _).
  - discriminate.
  - vm_compute. reflexivity.
  - intros h [= <-].
    assert (challenge_claims Toy.P "bob" "abc" (Toy.world [] 1000 Toy.store)
            = Toy.challenge "bob" "abc"
                (JStr (Toy.utc_string (87400 * time.Second))) 1000) as ->
      by (vm_compute; reflexivity).
    apply toy_round_trips; [cbn; tauto | cbn; tauto | apply toy_universe_ok|].
    vm_compute. split; reflexivity.
  - reflexivity.
  - reflexivity.
  - vm_compute. reflexivity.
  - reflexivity.
Defined.

(** A token signed with the key by hand, with a numeric expiry, which the
    service itself never issues: accepted at 1500 s, the same request is
    answered with [ErrUnauthorized] at 3000 s, when the expiry has passed. *)
Lemma numeric_expiry_between_redemptions :
  let r := Toy.redeem "bob" numeric_challenge_token in
  let first := VerificationHandler Toy.P Toy.a r (Toy.world [] 1500 Toy.store) in
  let second :=
    VerificationHandler Toy.P Toy.a r (Toy.world [] 3000 (wusers first.2)) in
  first.1 = MsgOK "user verified"
  /\ second.1 = ErrUnauthorized "invalid token"
  /\ StatusCode second.1 = 401.
Proof. cbv zeta. repeat split; vm_compute; reflexivity. Qed.

(** ** The interceptors on concrete calls *)

Lemma exempt_call_forwarded_unmodified_witness :
  (newAuthInterceptors Toy.P unit string unit Toy.a
     ["/auth.TemporalAuth/Login"]).1
    Toy.bare_call tt {| FullMethod := "/auth.TemporalAuth/Login" |}
    (Some Toy.whoami) (Toy.world [] 1000 Toy.store)
  = ((Some "nobody", None), Toy.world [] 1000 Toy.store).
Proof.
  refine (eq_trans
    (proj1 (exempt_call_forwarded_unmodified Toy.P unit string unit Toy.a
              ["/auth.TemporalAuth/Login"]
              {| FullMethod := "/auth.TemporalAuth/Login" |}
              Toy.bare_call tt Toy.whoami tt (TransportStream Toy.bare_call)
              (fun _ _ => mret None) (Toy.world [] 1000 Toy.store) _)) _).
  - apply list_elem_of_In. cbn. tauto.
  - reflexivity.
Defined.

Lemma no_bearer_call_rejected_witness :
  exists err,
    (newAuthInterceptors Toy.P unit string unit Toy.a
       ["/auth.TemporalAuth/Login"]).1
      (Toy.call "Basic Ym9iOmJvYg==") tt
      {| FullMethod := "/auth.TemporalAuth/Account" |}
      (Some Toy.whoami) (Toy.world [] 1000 Toy.store)
    = ((None, Some err), Toy.world [] 1000 Toy.store)
    /\ status_Code err = Some codes.Unauthenticated.
Proof.
  refine (proj1 (no_bearer_call_rejected Toy.P unit string unit Toy.a
                   ["/auth.TemporalAuth/Login"]
                   {| FullMethod := "/auth.TemporalAuth/Account" |}
                   (Toy.call "Basic Ym9iOmJvYg==") tt (Some Toy.whoami)
                   tt (TransportStream Toy.bare_call) None
                   (Toy.world [] 1000 Toy.store) _ _ _)).
  - intros Hin. apply list_elem_of_In in Hin. cbn in Hin. intuition discriminate.
  - unfold no_bearer. cbn.
    apply not_Contains_by_Split; [discriminate | vm_compute; reflexivity].
  - exact I.
Defined.

(** C6 fails as stated for an [authorization] value that is not of the form
    ["Bearer <token>"] but contains ["Bearer "] further in: the text after
    it is taken for the token, and the handler runs. *)
Lemma prefixed_bearer_counterexample :
  let authorization := "xBearer " +:+ Toy.session_token jwt.HS512 "bob" in
  strings.HasPrefix authorization "Bearer " = false
  /\ (newAuthInterceptors Toy.P unit string unit Toy.a
        ["/auth.TemporalAuth/Login"]).1
       (Toy.call authorization) tt
       {| FullMethod := "/auth.TemporalAuth/Account" |}
       (Some Toy.whoami) (Toy.world [] 1000 Toy.store)
     = ((Some "bob", None), after_validate (Toy.world [] 1000 Toy.store) "bob").
Proof. cbv zeta. split; vm_compute; reflexivity. Qed.

(** ** The e-mail format check *)

Lemma Split_nonempty (s sep : string) : strings.Split s sep <> [].
Proof.
  unfold strings.Split. pose proof (splitFrom_nonempty sep 0 "" s) as H.
  intros E. rewrite E in H. simpl in H. lia.
Qed.

Lemma ContainsRune_not_Contains (s : string) (r : ascii) :
  ~ strings.Contains s (String r "") -> strings.ContainsRune s r = false.
Proof.
  intros H. destruct (strings.ContainsRune s r) eqn:E; [|reflexivity].
  now apply ContainsRune_Contains in E.
Qed.

(** C8, amended. An address without ['@'] is rejected as malformed. An
    address with one or more ['@'] passes that check; its local part is the
    text before the first ['@']; a local part containing ['+'] is rejected
    as catch-all, otherwise one ending with ['.'] is rejected for its
    trailing period, otherwise the lookup of the host, the text between the
    first ['@'] and the next, decides: the address is accepted when the
    lookup returns at least one address and no error, and rejected as
    unresolvable when it does not. *)
Theorem validateEmailFormat_rules
    (LookupIP : string -> list string * option error) (email : string) :
  (~ strings.Contains email "@" ->
   validateEmailFormat LookupIP email = Returns (Some MalformedAddress))
  /\ (forall account rest : string,
        email = account +:+ "@" +:+ rest ->
        ~ strings.Contains account "@" ->
        (strings.Contains account "+" ->
         validateEmailFormat LookupIP email = Returns (Some CatchAllNotAllowed))
        /\ (~ strings.Contains account "+" -> strings.EndsWith account "." ->
            validateEmailFormat LookupIP email = Returns (Some TrailingPeriod))
        /\ (~ strings.Contains account "+" -> ~ strings.EndsWith account "." ->
            exists host more,
              strings.Split rest "@" = host :: more
              /\ ((exists n, LookupIP host = (n, None) /\ n <> []) ->
                  validateEmailFormat LookupIP email = Returns None)
              /\ (~ (exists n, LookupIP host = (n, None) /\ n <> []) ->
                  validateEmailFormat LookupIP email
                  = Returns (Some (UnresolvableDomain host))))).
Proof.
  split.
  - intros Hno. unfold validateEmailFormat.
    now rewrite (ContainsRune_not_Contains _ _ Hno).
  - intros account rest -> Hacc.
    apply ContainsRune_not_Contains in Hacc.
    assert (validateEmailFormat LookupIP (account +:+ "@" +:+ rest)
            = match strings.Split rest "@" with
              | host :: _ =>
                  if strings.ContainsRune account "+" then
                    Returns (Some CatchAllNotAllowed)
                  else if strings.HasSuffix account "." then
                    Returns (Some TrailingPeriod)
                  else
                    let '(n, err) := LookupIP host in
                    if is_error err || (length n =? 0)%nat then
                      Returns (Some (UnresolvableDomain host))
                    else Returns None
              | [] => Panics
              end) as ->.
    { unfold validateEmailFormat. rewrite ContainsRune_app. str_norm.
      cbn [strings.ContainsRune]. rewrite Ascii.eqb_refl, orb_true_r.
      cbn [negb orb]. now rewrite (Split_first_byte "@" account rest Hacc). }
    destruct (strings.Split rest "@") as [|host more] eqn:Hrest;
      [now apply Split_nonempty in Hrest|].
    split; [|split].
    + intros Hplus. apply ContainsRune_Contains in Hplus. now rewrite Hplus.
    + intros Hplus Hdot. rewrite (ContainsRune_not_Contains _ _ Hplus).
      apply HasSuffix_spec in Hdot. now rewrite Hdot.
    + intros Hplus Hdot. rewrite (ContainsRune_not_Contains _ _ Hplus).
      destruct (strings.HasSuffix account ".") eqn:Hs;
        [now apply HasSuffix_spec in Hs|].
      exists host, more. split; [reflexivity|].
      destruct (LookupIP host) as [n [e|]]; cbn [is_error orb].
      * split; [now intros (n' & [= _] & _)|reflexivity].
      * destruct n as [|ip n]; cbn [length Nat.eqb].
        -- split; [now intros (n' & [= <-] & Hn) | reflexivity].
        -- split; [reflexivity|]. intros Hno. exfalso. apply Hno.
           now exists (ip :: n).
Qed.

Lemma validateEmailFormat_rules_witness :
  validateEmailFormat resolve_all "not-an-email" = Returns (Some MalformedAddress)
  /\ validateEmailFormat resolve_all "a+x@b.com" = Returns (Some CatchAllNotAllowed)
  /\ validateEmailFormat resolve_all "a.@b.com" = Returns (Some TrailingPeriod)
  /\ validateEmailFormat resolve_all "a@b.com" = Returns None
  /\ validateEmailFormat resolve_none "a@b.com"
     = Returns (Some (UnresolvableDomain "b.com")).
Proof.
  split; [|split; [|split; [|split]]].
  - apply (proj1 (validateEmailFormat_rules resolve_all "not-an-email")).
    apply not_Contains_by_Split; [discriminate | vm_compute; reflexivity].
  - apply (proj2 (validateEmailFormat_rules resolve_all "a+x@b.com")
             "a+x" "b.com" eq_refl).
    + apply not_Contains_by_Split; [discriminate | vm_compute; reflexivity].
    + now exists "a", "x".
  - apply (proj2 (validateEmailFormat_rules resolve_all "a.@b.com")
             "a." "b.com" eq_refl).
    + apply not_Contains_by_Split; [discriminate | vm_compute; reflexivity].
    + apply not_Contains_by_Split; [discriminate | vm_compute; reflexivity].
    + now exists "a".
  - destruct (proj2 (proj2 (proj2 (validateEmailFormat_rules resolve_all "a@b.com")
                                "a" "b.com" eq_refl
                                ltac:(apply not_Contains_by_Split;
                                      [discriminate | vm_compute; reflexivity])))
                ltac:(apply not_Contains_by_Split;
                      [discriminate | vm_compute; reflexivity])
                ltac:(intros Hx; apply HasSuffix_spec in Hx; discriminate Hx))
      as (host & more & [= <- _] & Hyes & _).
    apply Hyes. now eexists.
  - destruct (proj2 (proj2 (proj2 (validateEmailFormat_rules resolve_none "a@b.com")
                                "a" "b.com" eq_refl
                                ltac:(apply not_Contains_by_Split;
                                      [discriminate | vm_compute; reflexivity])))
                ltac:(apply not_Contains_by_Split;
                      [discriminate | vm_compute; reflexivity])
                ltac:(intros Hx; apply HasSuffix_spec in Hx; discriminate Hx))
      as (host & more & [= <- _] & _ & Hno).
    apply Hno. now intros (n & [= <-] & Hn).
Defined.

(** C8 fails as stated for an address with two ['@']: it is not rejected as
    malformed; what decides is the lookup of the text between the two. *)
Lemma validateEmailFormat_two_at_counterexample :
  CountRune "a@b@c.com" "@" = 2%nat
  /\ validateEmailFormat resolve_all "a@b@c.com" = Returns None
  /\ validateEmailFormat resolve_none "a@b@c.com"
     = Returns (Some (UnresolvableDomain "b"))
  /\ UnresolvableDomain "b" <> MalformedAddress.
Proof. repeat split; try (vm_compute; reflexivity). discriminate. Qed.

(** ** Numeric expiry *)

(** A numeric [exp] other than 0 that lies before [now] makes [Valid]
    fail. *)
Lemma expired_claims_invalid (now e : Z) (m : MapClaims) :
  m !! claimExpiry = Some (JNum e) -> e <> 0 -> e < now ->
  jwt.MapClaims_Valid_at now m <> None.
Proof.
  intros Hexp He Hlt. unfold jwt.MapClaims_Valid_at, jwt.VerifyExpiresAt.
  unfold claimExpiry in Hexp. rewrite Hexp. unfold jwt.verifyExp.
  apply Z.eqb_neq in He. rewrite He.
  assert ((now <=? e) = false) as -> by (apply Z.leb_gt; lia).
  cbn [negb jwt.flag].
  assert (forall v : jwt.vErr, jwt.vErr_valid v = true -> jwt.Errors v = 0%N)
    as Hvalid by (intros v Hv; now apply N.eqb_eq in Hv).
  assert (forall c i b v, jwt.Errors v <> 0%N ->
                          jwt.Errors (jwt.flag c i b v) <> 0%N) as Hkeep.
  { intros c i b v Hv. unfold jwt.flag. destruct c; [|exact Hv].
    cbn [jwt.Errors]. intros H0. now apply N.lor_eq_0_iff in H0 as [H0 _]. }
  destruct (jwt.vErr_valid _) eqn:Hv; [|discriminate].
  apply Hvalid in Hv. exfalso. revert Hv. apply Hkeep. apply Hkeep.
  cbn [jwt.Errors]. discriminate.
Qed.

(** The gate rejects a token whose numeric expiry, other than 0, has passed
    when the clock is read, whatever its signature. *)
Lemma expired_token_rejected_by_gate (P : Primitives) (a : AuthService)
    (ctx : Context) (bearerString x tokenString : string) (more : list string)
    (e : Z) (w : World) :
  bearerString_of ctx = Some bearerString ->
  strings.Split bearerString "Bearer " = x :: tokenString :: more ->
  claims_of P tokenString !! claimExpiry = Some (JNum e) ->
  e <> 0 ->
  e < time.Unix (wclock w (wtick w)) ->
  exists err,
    (validate P a ctx w).1 = inr err
    /\ status_Code err = Some codes.Unauthenticated.
Proof.
  intros Hb Hsplit Hexp He Hlt.
  unfold bearerString_of in Hb. unfold validate.
  destruct (metadata.FromIncomingContext ctx) as [meta|]; [|discriminate].
  destruct (meta !! "authorization") as [[|b rest]|]; try discriminate.
  injection Hb as ->. rewrite Hsplit.
  unfold jwt.Parse, claims_of in *.
  destruct (jwt.ParseUnverified P tokenString) as [[t [[p0 p1] p2]]|perr];
    [|eexists; split; reflexivity].
  pose proof (expired_claims_invalid _ e _ Hexp He Hlt) as Hinv.
  unfold validate_keyFunc, jwt.MapClaims_Valid, time_Now.
  run_go. go_cbn.
  destruct (jwt.MapClaims_Valid_at _ _); [|congruence].
  eexists; split; reflexivity.
Qed.

(** So does the verification endpoint. *)
Lemma expired_token_rejected_at_redemption (P : Primitives) (a : AuthService)
    (r : Request) (e : Z) (w : World) :
  claims_of P (Query_Get r "token") !! claimExpiry = Some (JNum e) ->
  e <> 0 ->
  e < time.Unix (wclock w (wtick w)) ->
  exists message,
    (VerificationHandler P a r w).1 = ErrBadRequest message
    \/ (VerificationHandler P a r w).1 = ErrUnauthorized message.
Proof.
  intros Hexp He Hlt. unfold VerificationHandler.
  destruct (String.eqb (Query_Get r "user") "" || String.eqb (Query_Get r "token") "");
    [eexists; now left|].
  unfold jwt.Parse, claims_of in *.
  destruct (jwt.ParseUnverified P (Query_Get r "token"))
    as [[t [[p0 p1] p2]]|perr]; [|eexists; now right].
  pose proof (expired_claims_invalid _ e _ Hexp He Hlt) as Hinv.
  unfold verification_keyFunc, jwt.MapClaims_Valid, time_Now.
  run_go. go_cbn.
  destruct (negb (jwt.is_HMAC (jwt.Method t))); [eexists; now right|].
  destruct (negb (bool_decide _)); [eexists; now right|]. go_cbn.
  destruct (jwt.MapClaims_Valid_at _ _) as [cerr|] eqn:Hv; [|congruence].
  destruct (MapClaims_Valid_at_error _ _ _ Hv) as (inner & flags & -> & Hflags).
  assert (forall v : option error,
            jwt.vErr_valid
              match v with
              | Some err =>
                  {| jwt.Inner := Some err;
                     jwt.Errors := N.lor flags jwt.ValidationErrorSignatureInvalid |}
              | None => {| jwt.Inner := inner; jwt.Errors := flags |}
              end = false) as Hbad.
  { intros [verr|]; unfold jwt.vErr_valid; cbn [jwt.Errors]; apply N.eqb_neq.
    - intros H0. apply N.lor_eq_0_iff in H0 as [_ H0]. discriminate.
    - exact Hflags. }
  cbn [jwt.Errors]. rewrite Hbad. eexists; now right.
Qed.

(** An [exp] of 0 counts as unset ([verifyExp]): a session token of bob
    with [exp = 0] is accepted at 5000 s. *)
Lemma zero_expiry_is_unset :
  let tok :=
    (jwt.SignedString Toy.P
       (jwt.NewWithClaims jwt.HS512 (Toy.session "bob" 0 1000)) "secret").1 in
  (validate Toy.P Toy.a (Toy.call ("Bearer " +:+ tok))
     (Toy.world [] 5000 Toy.store)).1
  = inl (ctxSetUser (ctxSetClaims (Toy.call ("Bearer " +:+ tok))
                       (Toy.session "bob" 0 1000))
           (Some Toy.bob)).
Proof. vm_compute. reflexivity. Qed.

(** The gate does not tell a challenge token from a session token: presented
    as a bearer credential, the challenge token of a user of the store is
    accepted whatever the clock reads. *)
Lemma challenge_token_accepted_by_gate (P : Primitives) (a : AuthService)
    (user challenge : string) (u : User) (h : N) (w0 : World) (tok : string)
    (ctx : Context) (meta : gmap string (list string)) (rest : list string)
    (w : World) :
  user <> "" ->
  wusers w !! user = Some u ->
  jwt.hmac_hash (SigningAlgo (jwt a)) = Some h ->
  (signChallengeToken P a user challenge w0).1 = (tok, None) ->
  round_trips P
    (jwt.NewWithClaims (SigningAlgo (jwt a))
       (challenge_claims P user challenge w0)) h (Key (jwt a)) ->
  incoming ctx = Some meta ->
  meta !! "authorization" = Some (("Bearer " +:+ tok) :: rest) ->
  (validate P a ctx w).1
  = inl (ctxSetUser (ctxSetClaims ctx (challenge_claims P user challenge w0))
           (Some u)).
Proof.
  intros Huser Hu Hh Hsign Hrt Hctx Hmeta.
  rewrite signChallengeToken_run in Hsign. cbn [fst] in Hsign.
  destruct (challenge_claims_lookup P user challenge w0) as (Hid & _).
  now rewrite (validate_accepts_signed P a ctx meta rest _ h _ tok user u w
                 Hctx Hmeta Hh Hrt Hsign Hid Huser Hu
                 (challenge_claims_valid P _ _ w0 _)
                 (challenge_claims_valid P _ _ w0 _)).
Qed.

(** * Further properties of the service *)

(** ** What the gate guarantees *)

Lemma vErr_valid_inv (cerr verr : option error) :
  jwt.vErr_valid
    match verr with
    | Some err =>
        {| jwt.Inner := Some err;
           jwt.Errors :=
             N.lor
               (jwt.Errors
                  match cerr with
                  | None => {| jwt.Inner := None; jwt.Errors := 0 |}
                  | Some (jwt_ValidationError i e _) =>
                      {| jwt.Inner := i; jwt.Errors := e |}
                  | Some err0 =>
                      {| jwt.Inner := Some err0;
                         jwt.Errors := jwt.ValidationErrorClaimsInvalid |}
                  end)
               jwt.ValidationErrorSignatureInvalid |}
    | None =>
        match cerr with
        | None => {| jwt.Inner := None; jwt.Errors := 0 |}
        | Some (jwt_ValidationError i e _) => {| jwt.Inner := i; jwt.Errors := e |}
        | Some err0 =>
            {| jwt.Inner := Some err0;
               jwt.Errors := jwt.ValidationErrorClaimsInvalid |}
        end
    end = true ->
  verr = None
  /\ (cerr = None \/ exists i t, cerr = Some (jwt_ValidationError i 0 t)).
Proof.
  destruct verr as [verr|].
  - now rewrite signature_flag_invalid.
  - intros H. split; [reflexivity|].
    destruct cerr as [[| | |i e t]|]; try discriminate; [|now left].
    right. unfold jwt.vErr_valid in H. cbn [jwt.Errors] in H.
    apply N.eqb_eq in H as ->. now exists i, t.
Qed.

Lemma validate_inl_accepted (P : Primitives) (a : AuthService)
    (ctx ctx' : Context) (w w' : World) :
  validate P a ctx w = (inl ctx', w') -> accepted P a ctx w ctx' w'.
Proof.
  unfold validate, accepted, bearerString_of.
  destruct (metadata.FromIncomingContext ctx) as [meta|]; [|discriminate].
  destruct (meta !! "authorization") as [[|b rest]|]; try discriminate.
  destruct (strings.Split b "Bearer ") as [|x [|tokenString more]] eqn:Hsplit;
    try discriminate.
  unfold jwt.Parse.
  destruct (jwt.ParseUnverified P tokenString) as [[t [[p0 p1] p2]]|perr]
    eqn:Hparse; [|discriminate].
  unfold validate_keyFunc, jwt.MapClaims_Valid, users.FindByUserName,
    time_Now, log_event, get_users.
  run_go. go_cbn.
  destruct (jwt.MapClaims_Valid_at (time.Unix (wclock w (wtick w)))
              (jwt.Claims t)) as [cerr|] eqn:Hv1; [discriminate|].
  destruct (jwt.Claims t !! claimUser) as [[| | |uid]|] eqn:Hid;
    try discriminate.
  destruct (String.eqb uid "") eqn:Huid; [discriminate|]. go_cbn.
  destruct (wusers w !! uid) as [u|] eqn:Hu; [|discriminate]. go_cbn.
  destruct (jwt.vErr_valid _) eqn:Hok; go_cbn; [|discriminate].
  apply vErr_valid_inv in Hok as [Hver Hv2].
  cbn [negb]. intros [= <- <-].
  exists b, x, tokenString, more, t, p0, p1, p2, uid, u.
  apply String.eqb_neq in Huid.
  repeat (split; [assumption || reflexivity|]).
  split; [|now repeat split].
  destruct Hv2 as [Hv2|(i & tx & Hv2)]; [exact Hv2|].
  destruct (MapClaims_Valid_at_error _ _ _ Hv2) as (? & flags & [= _ <- _] & Hne).
  congruence.
Qed.

(** X1. [validate] accepts only what it has checked: when it returns a
    context, the token's signature verifies under the configured key, its
    claims are valid at both looks at the clock and name a non-empty user of
    the store, and the context returned is the call's with those claims and
    that user attached. *)
Theorem validate_sound (P : Primitives) (a : AuthService) (ctx ctx' : Context)
    (w w' : World) :
  validate P a ctx w = (inl ctx', w') -> accepted P a ctx w ctx' w'.
Proof. apply validate_inl_accepted. Qed.

Lemma validate_sound_witness :
  let ctx := Toy.call ("Bearer " +:+ Toy.session_token jwt.HS512 "bob") in
  let w := Toy.world [] 1000 Toy.store in
  accepted Toy.P Toy.a ctx w
    (ctxSetUser (ctxSetClaims ctx (Toy.session "bob" 4600 1000)) (Some Toy.bob))
    (after_validate w "bob").
Proof. cbv zeta. apply validate_sound. vm_compute. reflexivity. Defined.

Ltac break_goal_match :=
  match goal with
  | |- context [match ?x with _ => _ end] =>
      lazymatch x with
      | context [match _ with _ => _ end] => fail
      | _ => destruct x eqn:?
      end
  end.

Ltac unfold_validate :=
  unfold validate, jwt.Parse, validate_keyFunc, jwt.MapClaims_Valid,
    users.FindByUserName, time_Now, log_event, get_users;
  run_go.

(** X2. [validate] only reads: whatever the call and the outcome, the store
    is left as it was, the clock is read at most twice, and the store is
    asked at most once, by [FindByUserName]. *)
Theorem validate_frame (P : Primitives) (a : AuthService) (ctx : Context)
    (w : World) :
  let w' := (validate P a ctx w).2 in
  wusers w' = wusers w
  /\ wclock w' = wclock w
  /\ (wtick w <= wtick w' <= wtick w + 2)%nat
  /\ (wlog w' = wlog w
      \/ exists uid, wlog w' = (wlog w ++ [EvFindByUserName uid])%list).
Proof.
  cbv zeta. unfold_validate.
  repeat first [ progress go_cbn | break_goal_match ];
    (split; [reflexivity|]); (split; [reflexivity|]); (split; [cbn; lia|]);
    first [ now left | right; now eexists ].
Qed.

Lemma validate_inr_code (P : Primitives) (a : AuthService)
    (ctx : Context) (w : World) (err : error) :
  (validate P a ctx w).1 = inr err ->
  status_Code err = Some codes.Unauthenticated.
Proof.
  unfold_validate.
  repeat first [ progress go_cbn | break_goal_match ];
    intros [= <-] || discriminate; reflexivity.
Qed.

(** X3. Every rejection by [validate] carries the code [Unauthenticated],
    whichever check failed: missing metadata, a missing or malformed
    credential, a token that does not parse, invalid claims, a missing or
    unknown user, a bad signature. *)
Theorem validate_rejections_unauthenticated (P : Primitives) (a : AuthService)
    (ctx : Context) (w : World) (err : error) :
  (validate P a ctx w).1 = inr err ->
  status_Code err = Some codes.Unauthenticated.
Proof. apply validate_inr_code. Qed.

Lemma validate_rejections_unauthenticated_witness :
  status_Code
    (Unauthenticated "invalid key: %v"
       (Some (jwt_ValidationError (Some jwt.ErrSignatureInvalid)
                jwt.ValidationErrorSignatureInvalid "")))
  = Some codes.Unauthenticated.
Proof.
  apply (validate_rejections_unauthenticated Toy.P Toy.a
           (Toy.call ("Bearer " +:+ forged_token)) (Toy.world [] 1000 Toy.store)).
  vm_compute. reflexivity.
Defined.

(** X4. A token of proper structure with valid claims that names a user the
    store does not know is rejected with [Unauthenticated], not [NotFound],
    whatever its signature: the store is asked once and the signature is
    never looked at. *)
Theorem unknown_user_unauthenticated
    (P : Primitives) (a : AuthService) (ctx : Context)
    (bearerString x tokenString : string) (more : list string)
    (t : jwt.Token) (parts : string * string * string) (uid : string)
    (w : World) :
  bearerString_of ctx = Some bearerString ->
  strings.Split bearerString "Bearer " = x :: tokenString :: more ->
  jwt.ParseUnverified P tokenString = inl (t, parts) ->
  jwt.MapClaims_Valid_at (time.Unix (wclock w (wtick w))) (jwt.Claims t) = None ->
  jwt.Claims t !! claimUser = Some (JStr uid) ->
  uid <> "" ->
  wusers w !! uid = None ->
  validate P a ctx w
  = (inr (Unauthenticated "invalid key: %v"
            (Some (jwt_ValidationError
                     (Some (Unauthenticated
                              "unable to find user associated with token" None))
                     jwt.ValidationErrorUnverifiable ""))),
     {| wclock := wclock w; wtick := S (wtick w); wusers := wusers w;
        wlog := wlog w ++ [EvFindByUserName uid] |}).
Proof.
  intros Hb Hsplit Hparse Hvalid Hid Huid Hu.
  unfold bearerString_of in Hb. unfold validate.
  destruct (metadata.FromIncomingContext ctx) as [meta|]; [|discriminate].
  destruct (meta !! "authorization") as [[|b rest]|]; try discriminate.
  injection Hb as ->. rewrite Hsplit.
  unfold jwt.Parse. rewrite Hparse. destruct parts as [[p0 p1] p2].
  unfold validate_keyFunc, jwt.MapClaims_Valid, users.FindByUserName,
    time_Now, log_event, get_users.
  run_go. go_cbn. rewrite Hvalid, Hid.
  apply String.eqb_neq in Huid. rewrite Huid. go_cbn.
  now rewrite Hu.
Qed.

Lemma unknown_user_unauthenticated_witness :
  exists err,
    (validate Toy.P Toy.a
       (Toy.call ("Bearer " +:+ Toy.session_token jwt.HS512 "bob"))
       (Toy.world [] 1000 ∅)).1 = inr err
    /\ status_Code err = Some codes.Unauthenticated.
Proof.
  eexists. split.
  - rewrite (unknown_user_unauthenticated Toy.P Toy.a
               (Toy.call ("Bearer " +:+ Toy.session_token jwt.HS512 "bob"))
               ("Bearer " +:+ Toy.session_token jwt.HS512 "bob") ""
               (Toy.session_token jwt.HS512 "bob") []
               {| jwt.Raw := Toy.session_token jwt.HS512 "bob";
                  jwt.Method := jwt.HS512;
                  jwt.Header := Toy.header "HS512";
                  jwt.Claims := Toy.session "bob" 4600 1000;
                  jwt.Signature := ""; jwt.Valid := false |}
               (Toy.encode (Toy.header "HS512"),
                Toy.encode (Toy.session "bob" 4600 1000),
                hmac_Sum Toy.P 512 "secret"
                  (Toy.encode (Toy.header "HS512") +:+ "."
                     +:+ Toy.encode (Toy.session "bob" 4600 1000)))
               "bob" (Toy.world [] 1000 ∅)).
    + reflexivity.
    + reflexivity.
    + vm_compute. reflexivity.
    + vm_compute. reflexivity.
    + vm_compute. reflexivity.
    + vm_compute. reflexivity.
    + discriminate.
    + reflexivity.
  - reflexivity.
Defined.

(** ** The interceptors on protected methods *)

(** X5. On a method that is not exempt the unary interceptor either rejects
    the call with [Unauthenticated], the same way whatever the handler is, or
    runs the handler on a context that [validate] has accepted: one that
    carries the claims of a verified token and the user of the store they
    name. *)
Theorem protected_unary_call
    (P : Primitives) (Req Resp Srv : Type) (a : AuthService)
    (exceptions : list string) (info : ServerInfo)
    (ctx : Context) (req : Req) (w : World) :
  FullMethod info ∉ exceptions ->
  let run := fun handler =>
    (newAuthInterceptors P Req Resp Srv a exceptions).1 ctx req info handler w in
  (exists err w',
      status_Code err = Some codes.Unauthenticated
      /\ forall handler, run handler = ((None, Some err), w'))
  \/ (exists ctx' w',
        accepted P a ctx w ctx' w'
        /\ forall handler, run (Some handler) = handler ctx' req w').
Proof.
  intros Hnin. cbv zeta.
  unfold newAuthInterceptors, unaryInterceptor. cbn [fst].
  rewrite (exclude_lookup_not_exempt _ _ Hnin). cbn [negb andb]. run_go.
  destruct (validate P a ctx w) as [[ctx'|err] w'] eqn:Hv.
  - right. exists ctx', w'. split; [now apply validate_inl_accepted|].
    reflexivity.
  - left. exists err, w'. split; [|reflexivity].
    apply (validate_inr_code P a ctx w). now rewrite Hv.
Qed.

(** X6. On a method that is not exempt the stream interceptor either rejects
    the stream with [Unauthenticated] or runs the handler on a stream whose
    context is one [validate] has accepted for the context of the stream it
    was given; a stream of the transport gets one wrapper, a stream that is
    wrapped already gets no second one. *)
Theorem protected_stream_call
    (P : Primitives) (Req Resp Srv : Type) (a : AuthService)
    (exceptions : list string) (info : ServerInfo)
    (srv : Srv) (stream : ServerStream) (w : World) :
  FullMethod info ∉ exceptions ->
  let run := fun handler =>
    (newAuthInterceptors P Req Resp Srv a exceptions).2 srv stream info handler w in
  (exists err w',
      status_Code err = Some codes.Unauthenticated
      /\ forall handler, run handler = (Some err, w'))
  \/ (exists stream' w',
        accepted P a (stream_Context stream) w (stream_Context stream') w'
        /\ wrap_depth stream' = Nat.max 1 (wrap_depth stream)
        /\ forall handler, run (Some handler) = handler srv stream' w').
Proof.
  intros Hnin. cbv zeta.
  unfold newAuthInterceptors, streamInterceptor. cbn [snd].
  rewrite (exclude_lookup_not_exempt _ _ Hnin). cbn [negb andb]. run_go.
  destruct (validate P a (stream_Context stream) w) as [[ctx'|err] w'] eqn:Hv.
  - right. exists (WrapServerStream_with stream ctx'), w'.
    split; [|split; [|reflexivity]].
    + apply validate_inl_accepted in Hv. now destruct stream.
    + destruct stream as [c|inner c]; cbn [WrapServerStream_with wrap_depth];
        [reflexivity | lia].
  - left. exists err, w'. split; [|reflexivity].
    apply (validate_inr_code P a (stream_Context stream) w). now rewrite Hv.
Qed.

Lemma protected_unary_call_witness :
  let run := fun handler =>
    (newAuthInterceptors Toy.P unit string unit Toy.a
       ["/auth.TemporalAuth/Login"]).1
      (Toy.call ("Bearer " +:+ Toy.session_token jwt.HS512 "bob")) tt
      {| FullMethod := "/auth.TemporalAuth/Refresh" |} handler
      (Toy.world [] 1000 Toy.store) in
  (exists err w',
      status_Code err = Some codes.Unauthenticated
      /\ forall handler, run handler = ((None, Some err), w'))
  \/ (exists ctx' w',
        accepted Toy.P Toy.a
          (Toy.call ("Bearer " +:+ Toy.session_token jwt.HS512 "bob"))
          (Toy.world [] 1000 Toy.store) ctx' w'
        /\ forall handler, run (Some handler) = handler ctx' tt w').
Proof.
  apply (protected_unary_call Toy.P unit string unit Toy.a
           ["/auth.TemporalAuth/Login"]
           {| FullMethod := "/auth.TemporalAuth/Refresh" |}).
  intros Hin. apply list_elem_of_In in Hin. cbn in Hin. intuition discriminate.
Defined.

Lemma protected_stream_call_witness :
  let stream :=
    TransportStream (Toy.call ("Bearer " +:+ Toy.session_token jwt.HS512 "bob")) in
  let run := fun handler =>
    (newAuthInterceptors Toy.P unit string unit Toy.a
       ["/auth.TemporalAuth/Login"]).2
      tt stream {| FullMethod := "/store.TemporalStore/Upload" |} handler
      (Toy.world [] 1000 Toy.store) in
  (exists err w',
      status_Code err = Some codes.Unauthenticated
      /\ forall handler, run handler = (Some err, w'))
  \/ (exists stream' w',
        accepted Toy.P Toy.a (stream_Context stream)
          (Toy.world [] 1000 Toy.store) (stream_Context stream') w'
        /\ wrap_depth stream' = Nat.max 1 (wrap_depth stream)
        /\ forall handler, run (Some handler) = handler tt stream' w').
Proof.
  apply (protected_stream_call Toy.P unit string unit Toy.a
           ["/auth.TemporalAuth/Login"]
           {| FullMethod := "/store.TemporalStore/Upload" |}).
  intros Hin. apply list_elem_of_In in Hin. cbn in Hin. intuition discriminate.
Defined.

(** ** The verification endpoint *)

Ltac unfold_redeem :=
  unfold VerificationHandler, jwt.Parse, verification_keyFunc,
    jwt.MapClaims_Valid, users.FindByUserName,
    users.ValidateEmailVerificationToken, time_Now, log_event, get_users,
    set_users;
  run_go.

Lemma ParseUnverified_empty (P : Primitives) :
  jwt.ParseUnverified P ""
  = inr (jwt.NewValidationError "token contains an invalid number of segments"
           jwt.ValidationErrorMalformed).
Proof. reflexivity. Qed.

(** X7. The endpoint holds a token to the configured algorithm: a request
    with a user and a token of proper structure whose header names another
    signing method is answered with [ErrUnauthorized] before the clock is
    read or the store is asked, whatever its signature and claims. *)
Theorem redemption_rejects_other_algorithm
    (P : Primitives) (a : AuthService) (r : Request) (t : jwt.Token)
    (parts : string * string * string) (w : World) :
  Query_Get r "user" <> "" ->
  jwt.ParseUnverified P (Query_Get r "token") = inl (t, parts) ->
  jwt.Method t <> SigningAlgo (jwt a) ->
  VerificationHandler P a r w = (ErrUnauthorized "invalid token", w).
Proof.
  intros Huser Hparse Halg. unfold_redeem.
  apply String.eqb_neq in Huser. rewrite Huser.
  destruct (String.eqb (Query_Get r "token") "") eqn:Htok.
  { apply String.eqb_eq in Htok. rewrite Htok, ParseUnverified_empty in Hparse.
    discriminate. }
  cbn [orb]. rewrite Hparse. destruct parts as [[p0 p1] p2]. go_cbn.
  destruct (jwt.is_HMAC (jwt.Method t)); cbn [negb]; [|reflexivity].
  now rewrite bool_decide_eq_false_2.
Qed.

Lemma redemption_rejects_other_algorithm_witness :
  VerificationHandler Toy.P Toy.a (Toy.redeem "bob" hs256_challenge_token)
    (Toy.world [] 1000 Toy.store)
  = (ErrUnauthorized "invalid token", Toy.world [] 1000 Toy.store).
Proof.
  refine (redemption_rejects_other_algorithm Toy.P Toy.a
            (Toy.redeem "bob" hs256_challenge_token)
            {| jwt.Raw := hs256_challenge_token; jwt.Method := jwt.HS256;
               jwt.Header := Toy.header "HS256";
               jwt.Claims :=
                 Toy.challenge "bob" "abc"
                   (JStr (Toy.utc_string (87400 * time.Second))) 1000;
               jwt.Signature := ""; jwt.Valid := false |}
            (Toy.encode (Toy.header "HS256"),
             Toy.encode (Toy.challenge "bob" "abc"
                           (JStr (Toy.utc_string (87400 * time.Second))) 1000),
             hmac_Sum Toy.P 256 "secret"
               (Toy.encode (Toy.header "HS256") +:+ "."
                  +:+ Toy.encode
                        (Toy.challenge "bob" "abc"
                           (JStr (Toy.utc_string (87400 * time.Second))) 1000)))
            (Toy.world [] 1000 Toy.store) _ _ _).
  - discriminate.
  - vm_compute. reflexivity.
  - discriminate.
Defined.

(** X8. The endpoint accepts only what it has checked: when it answers
    [MsgOK], user and token were not empty, the token's method is the
    configured one and an HMAC method, its signature verifies under the
    configured key, its user is the user of the request, its challenge is
    the verification value the store held for that user, the store now
    holds that user with the value consumed, and the store has changed for
    that user only. *)
Theorem redemption_sound (P : Primitives) (a : AuthService) (r : Request)
    (w w1 : World) (message : string) :
  VerificationHandler P a r w = (MsgOK message, w1) ->
  exists (t : jwt.Token) (p0 p1 p2 : string) (u : User),
    String.eqb (Query_Get r "user") "" = false
    /\ String.eqb (Query_Get r "token") "" = false
    /\ jwt.ParseUnverified P (Query_Get r "token") = inl (t, (p0, p1, p2))
    /\ jwt.is_HMAC (jwt.Method t) = true
    /\ jwt.Method t = SigningAlgo (jwt a)
    /\ jwt.Verify P (jwt.Method t) (p0 +:+ "." +:+ p1) p2 (Key (jwt a)) = None
    /\ jwt.Claims t !! claimUser = Some (JStr (Query_Get r "user"))
    /\ jwt.Claims t !! claimChallenge = Some (JStr (EmailVerificationToken u))
    /\ wusers w !! Query_Get r "user" = Some u
    /\ wusers w1 !! Query_Get r "user" = Some (users.consume u)
    /\ forall other, other <> Query_Get r "user" ->
                     wusers w1 !! other = wusers w !! other.
Proof.
  intros Hok.
  destruct (redeem_ok_inv P a r w w1 message Hok)
    as (t & p0 & p1 & p2 & u & H1 & H2 & H3 & H4 & H5 & H6 & H7 & H8 & H9
        & H10).
  exists t, p0, p1, p2, u. repeat (split; [assumption|]).
  split; [rewrite H10; apply lookup_insert_eq|].
  intros other Hother. rewrite H10. now apply lookup_insert_ne.
Qed.

Lemma redemption_sound_witness :
  exists u : User,
    wusers (Toy.world [] 2000 Toy.store) !! "bob" = Some u
    /\ EmailVerificationToken u = "abc".
Proof.
  destruct (redemption_sound Toy.P Toy.a (Toy.redeem "bob" challenge_token)
              (Toy.world [] 2000 Toy.store)
              (VerificationHandler Toy.P Toy.a (Toy.redeem "bob" challenge_token)
                 (Toy.world [] 2000 Toy.store)).2
              "user verified")
    as (t & p0 & p1 & p2 & u & _ & _ & Hparse & _ & _ & _ & _ & Hch & Hu & _).
  - vm_compute. reflexivity.
  - exists u. split; [exact Hu|].
    assert (wusers (Toy.world [] 2000 Toy.store) !! "bob" = Some Toy.bob) as Hbob
      by reflexivity.
    change (Query_Get (Toy.redeem "bob" challenge_token) "user") with "bob" in Hu.
    rewrite Hbob in Hu. now injection Hu as <-.
Defined.

(** X9. A request the endpoint answers with 400, 401 or 404 changes nothing:
    the store is as it was, the consume operation has not been called, and
    the store has been asked at most once, for the user of the request. *)
Theorem failed_redemption_changes_nothing
    (P : Primitives) (a : AuthService) (r : Request) (w : World) :
  let resp := (VerificationHandler P a r w).1 in
  let w' := (VerificationHandler P a r w).2 in
  StatusCode resp <> 200 ->
  StatusCode resp <> 500 ->
  wusers w' = wusers w
  /\ (wlog w' = wlog w
      \/ wlog w' = (wlog w ++ [EvFindByUserName (Query_Get r "user")])%list).
Proof.
  assert (forall (resp : Response) (w' : World),
             wusers w' = wusers w ->
             (wlog w' = wlog w
              \/ wlog w' = (wlog w ++ [EvFindByUserName (Query_Get r "user")])%list) ->
             StatusCode (resp, w').1 <> 200 -> StatusCode (resp, w').1 <> 500 ->
             wusers (resp, w').2 = wusers w
             /\ (wlog (resp, w').2 = wlog w
                 \/ wlog (resp, w').2
                    = (wlog w ++ [EvFindByUserName (Query_Get r "user")])%list))
    as Hdone by (intros; now split).
  cbv zeta. unfold_redeem.
  destruct (String.eqb (Query_Get r "user") "" || String.eqb (Query_Get r "token") "");
    [apply Hdone; [reflexivity | now left]|].
  destruct (jwt.ParseUnverified P (Query_Get r "token"))
    as [[t [[p0 p1] p2]]|perr]; [|apply Hdone; [reflexivity | now left]].
  go_cbn.
  destruct (negb (jwt.is_HMAC (jwt.Method t)));
    [apply Hdone; [reflexivity | now left]|].
  destruct (negb (bool_decide _)); [apply Hdone; [reflexivity | now left]|].
  go_cbn.
  destruct (jwt.vErr_valid _); go_cbn; [|apply Hdone; [reflexivity | now left]].
  cbn [negb].
  destruct (negb _); [apply Hdone; [reflexivity | now left]|]. go_cbn.
  destruct (jwt.MapClaims_Valid_at (time.Unix (wclock w (S (wtick w)))) _);
    [apply Hdone; [reflexivity | now left]|]. go_cbn.
  destruct (wusers w !! Query_Get r "user") as [u|];
    [|apply Hdone; [reflexivity | now right]].
  destruct (jwt.Claims t !! claimChallenge) as [[| | |c]|];
    try (apply Hdone; [reflexivity | now right]).
  destruct (negb (String.eqb c (EmailVerificationToken u)));
    [apply Hdone; [reflexivity | now right]|]. go_cbn.
  destruct (wusers w !! Query_Get r "user") as [u'|]; go_cbn;
    [|cbn [StatusCode fst]; congruence].
  destruct (negb (String.eqb (EmailVerificationToken u') c));
    go_cbn; cbn [StatusCode fst]; congruence.
Qed.

Lemma failed_redemption_changes_nothing_witness :
  let w := Toy.world [] 1000 Toy.store in
  let w' :=
    (VerificationHandler Toy.P Toy.a
       (Toy.redeem "bob" numeric_challenge_token) (Toy.world [] 3000 Toy.store)).2 in
  wusers w' = wusers w.
Proof.
  cbv zeta.
  apply (failed_redemption_changes_nothing Toy.P Toy.a
           (Toy.redeem "bob" numeric_challenge_token)
           (Toy.world [] 3000 Toy.store));
    vm_compute; discriminate.
Defined.

(** X10. A token is good for its own user only: when the identity claim of
    the token is not the user of the request, the endpoint refuses the
    request, with [ErrBadRequest] or [ErrUnauthorized], without asking the
    store. *)
Theorem redemption_rejects_other_user
    (P : Primitives) (a : AuthService) (r : Request) (w : World) :
  claims_of P (Query_Get r "token") !! claimUser
  <> Some (JStr (Query_Get r "user")) ->
  let resp := (VerificationHandler P a r w).1 in
  let w' := (VerificationHandler P a r w).2 in
  (StatusCode resp = 400 \/ StatusCode resp = 401)
  /\ wusers w' = wusers w
  /\ wlog w' = wlog w.
Proof.
  intros Hother. cbv zeta. unfold claims_of in Hother. unfold_redeem.
  destruct (String.eqb (Query_Get r "user") "" || String.eqb (Query_Get r "token") "");
    [repeat split; now left|].
  destruct (jwt.ParseUnverified P (Query_Get r "token"))
    as [[t [[p0 p1] p2]]|perr]; [|repeat split; now right].
  go_cbn.
  destruct (negb (jwt.is_HMAC (jwt.Method t))); [repeat split; now right|].
  destruct (negb (bool_decide _)); [repeat split; now right|]. go_cbn.
  destruct (jwt.vErr_valid _); go_cbn; [|repeat split; now right].
  cbn [negb].
  destruct (jwt.Claims t !! claimUser) as [[| | |v]|] eqn:Hid; cbn [negb];
    try (repeat split; now left).
  destruct (String.eqb v (Query_Get r "user")) eqn:Hv; cbn [negb];
    [|repeat split; now left].
  apply String.eqb_eq in Hv. congruence.
Qed.

Lemma redemption_rejects_other_user_witness :
  let run :=
    VerificationHandler Toy.P Toy.a (Toy.redeem "alice" challenge_token)
      (Toy.world [] 2000 Toy.store) in
  (StatusCode run.1 = 400 \/ StatusCode run.1 = 401)
  /\ wusers run.2 = Toy.store
  /\ wlog run.2 = [].
Proof.
  apply (redemption_rejects_other_user Toy.P Toy.a
           (Toy.redeem "alice" challenge_token) (Toy.world [] 2000 Toy.store)).
  vm_compute. discriminate.
Defined.

(** ** Login and refresh *)

(** What a successful [Login] tells. *)
Lemma Login_ok_inv (P : Primitives)
    (SignIn : string -> string -> M (bool * option error)) (LoginError : string)
    (a : AuthService) (ctx : Context) (req : option auth.Credentials)
    (w0 w1 : World) (tok : auth.Token) (err : option error) :
  Login P SignIn LoginError a ctx req w0 = ((Some tok, err), w1) ->
  let user := auth.GetUsername req in
  let pw := auth.GetPassword req in
  err = None
  /\ user <> "" /\ pw <> ""
  /\ (SignIn user pw w0).1 = (true, None)
  /\ jwt.is_HMAC (SigningAlgo (jwt a)) = true
  /\ signAPIToken P a user (SignIn user pw w0).2
     = ((auth.Expire tok, auth.Token_ tok, None), w1).
Proof.
  cbv zeta. unfold Login.
  destruct (String.eqb (auth.GetUsername req) "") eqn:Hu; [discriminate|].
  destruct (String.eqb (auth.GetPassword req) "") eqn:Hp; [discriminate|].
  cbn [orb]. run_go.
  destruct (SignIn (auth.GetUsername req) (auth.GetPassword req) w0)
    as [[ok serr] ws]. cbn [fst snd].
  destruct serr; [discriminate|]. destruct ok; cbn [negb]; [|discriminate].
  pose proof (signAPIToken_run P a (auth.GetUsername req) ws) as Hrun.
  cbv zeta in Hrun.
  destruct (signAPIToken P a (auth.GetUsername req) ws) as [[[expire token] terr] w2].
  injection Hrun as Hexp Htok Herr Hw.
  destruct terr; [discriminate|]. intros [= <- <- <-].
  apply String.eqb_neq in Hu, Hp. cbn [auth.Expire auth.Token_].
  repeat (split; [assumption || reflexivity|]).
  split; [|reflexivity].
  symmetry in Herr. now apply SignedString_error in Herr.
Qed.

(** X11. [Login] hands out a token only for credentials the sign-in has
    confirmed: when it returns a token, user and password were not empty,
    [SignIn] answered yes without error, the configured algorithm is an HMAC
    method, and the token and expiry are those [signAPIToken] made for that
    user right after the sign-in. *)
Theorem login_sound (P : Primitives)
    (SignIn : string -> string -> M (bool * option error)) (LoginError : string)
    (a : AuthService) (ctx : Context) (req : option auth.Credentials)
    (w0 w1 : World) (tok : auth.Token) (err : option error) :
  Login P SignIn LoginError a ctx req w0 = ((Some tok, err), w1) ->
  let user := auth.GetUsername req in
  let pw := auth.GetPassword req in
  err = None
  /\ user <> "" /\ pw <> ""
  /\ (SignIn user pw w0).1 = (true, None)
  /\ jwt.is_HMAC (SigningAlgo (jwt a)) = true
  /\ signAPIToken P a user (SignIn user pw w0).2
     = ((auth.Expire tok, auth.Token_ tok, None), w1).
Proof. apply Login_ok_inv. Qed.

(** X12. The token of a successful [Login] opens the gate: presented as a
    bearer credential, it is accepted for the user who logged in, as long as
    the store knows that user and the clock, in whole seconds, has not
    passed the [Expire] the login reported. *)
Theorem login_token_opens_gate (P : Primitives)
    (SignIn : string -> string -> M (bool * option error)) (LoginError : string)
    (a : AuthService) (ctx0 : Context) (req : option auth.Credentials)
    (w0 w1 : World) (tok : auth.Token) (h : N)
    (ctx : Context) (meta : gmap string (list string)) (rest : list string)
    (u : User) (w : World) :
  let user := auth.GetUsername req in
  let signed_in := (SignIn user (auth.GetPassword req) w0).2 in
  Login P SignIn LoginError a ctx0 req w0 = ((Some tok, None), w1) ->
  jwt.hmac_hash (SigningAlgo (jwt a)) = Some h ->
  round_trips P
    (jwt.NewWithClaims (SigningAlgo (jwt a)) (session_claims a user signed_in))
    h (Key (jwt a)) ->
  incoming ctx = Some meta ->
  meta !! "authorization" = Some (("Bearer " +:+ auth.Token_ tok) :: rest) ->
  wusers w !! user = Some u ->
  time.Unix (wclock w (wtick w)) <= auth.Expire tok ->
  time.Unix (wclock w (S (wtick w))) <= auth.Expire tok ->
  validate P a ctx w
  = (inl (ctxSetUser (ctxSetClaims ctx (session_claims a user signed_in))
            (Some u)),
     after_validate w user).
Proof.
  cbv zeta. intros Hlogin Hh Hrt Hctx Hmeta Hu Ht1 Ht2.
  destruct (Login_ok_inv P SignIn LoginError a ctx0 req w0 w1 tok None Hlogin)
    as (_ & Huser & _ & _ & _ & Hsign).
  rewrite signAPIToken_run in Hsign. cbv zeta in Hsign.
  injection Hsign as Hexp Htok Herr _.
  destruct (session_claims_lookup a (auth.GetUsername req)
              (SignIn (auth.GetUsername req) (auth.GetPassword req) w0).2)
    as (Hid & _).
  apply (validate_accepts_signed P a ctx meta rest (SigningAlgo (jwt a)) h
           _ (auth.Token_ tok) _ u w Hctx Hmeta Hh Hrt); try assumption.
  - rewrite <- Htok, <- Herr. now destruct (jwt.SignedString _ _ _).
  - apply session_claims_valid_until. now rewrite Hexp.
  - apply session_claims_valid_until. now rewrite Hexp.
Qed.

(** X13. Behind the gate [Refresh] always finds its user: for a context
    [validate] has returned and an HMAC algorithm, it answers with a fresh
    token for the name of the user the store holds under the identity of the
    presented token, expiring one timeout after the clock reading it takes. *)
Theorem refresh_behind_gate (P : Primitives) (LoginError : string)
    (a : AuthService) (ctx ctx' : Context) (w w' w2 : World) :
  validate P a ctx w = (inl ctx', w') ->
  jwt.is_HMAC (SigningAlgo (jwt a)) = true ->
  exists (uid : string) (u : User),
    wusers w !! uid = Some u
    /\ claimsValue ctx' ≫= (.!! claimUser) = Some (JStr uid)
    /\ (Refresh P LoginError a ctx' w2).1
       = (Some {| auth.Expire :=
                    time.Unix (time.Add (wclock w2 (wtick w2)) (Timeout (jwt a)));
                  auth.Token_ :=
                    (jwt.SignedString P
                       (jwt.NewWithClaims (SigningAlgo (jwt a))
                          (session_claims a (UserName u) w2))
                       (Key (jwt a))).1 |},
          None).
Proof.
  intros Hv Hhmac. apply validate_inl_accepted in Hv.
  destruct Hv as (b & x & ts & more & t & p0 & p1 & p2 & uid & u & _ & _ & _ & _
                  & _ & _ & Hid & _ & Hu & -> & _).
  exists uid, u. split; [exact Hu|]. split; [exact Hid|].
  unfold Refresh, ctxGetUser.
  cbn [userValue ctxSetUser]. run_go.
  rewrite signAPIToken_run. cbv zeta. cbn [fst snd].
  assert ((jwt.SignedString P
             (jwt.NewWithClaims (SigningAlgo (jwt a))
                (session_claims a (UserName u) w2)) (Key (jwt a))).2 = None) as ->
    by now apply SignedString_error.
  reflexivity.
Qed.

Lemma login_sound_witness :
  let tok := {| auth.Expire := 4600;
                auth.Token_ := Toy.session_token jwt.HS512 "bob" |} in
  (password_is "hunter2" "bob" "hunter2" (Toy.world [] 1000 Toy.store)).1
  = (true, None)
  /\ jwt.is_HMAC (SigningAlgo (jwt Toy.a)) = true.
Proof.
  cbv zeta.
  destruct (login_sound Toy.P (password_is "hunter2") "login error" Toy.a
              Toy.bare_call bob_login (Toy.world [] 1000 Toy.store)
              (signAPIToken Toy.P Toy.a "bob" (Toy.world [] 1000 Toy.store)).2
              {| auth.Expire := 4600;
                 auth.Token_ := Toy.session_token jwt.HS512 "bob" |} None)
    as (_ & _ & _ & Hsign & Hhmac & _).
  - vm_compute. reflexivity.
  - split; [exact Hsign | exact Hhmac].
Defined.

Lemma login_token_opens_gate_witness :
  let ctx := Toy.call ("Bearer " +:+ Toy.session_token jwt.HS512 "bob") in
  validate Toy.P Toy.a ctx (Toy.world [] 4600 Toy.store)
  = (inl (ctxSetUser
            (ctxSetClaims ctx
               (session_claims Toy.a "bob" (Toy.world [] 1000 Toy.store)))
            (Some Toy.bob)),
     after_validate (Toy.world [] 4600 Toy.store) "bob").
Proof.
  cbv zeta.
  refine (login_token_opens_gate Toy.P (password_is "hunter2") "login error"
            Toy.a Toy.bare_call bob_login (Toy.world [] 1000 Toy.store)
            (signAPIToken Toy.P Toy.a "bob" (Toy.world [] 1000 Toy.store)).2
            {| auth.Expire := 4600;
               auth.Token_ := Toy.session_token jwt.HS512 "bob" |} 512%N
            (Toy.call ("Bearer " +:+ Toy.session_token jwt.HS512 "bob"))
            {[ "authorization" :=
                 ["Bearer " +:+ Toy.session_token jwt.HS512 "bob"] ]} []
            Toy.bob (Toy.world [] 4600 Toy.store) _ _ _ _ _ _ _ _).
  - vm_compute. reflexivity.
  - reflexivity.
  - assert (session_claims Toy.a (auth.GetUsername bob_login)
              (password_is "hunter2" (auth.GetUsername bob_login)
                 (auth.GetPassword bob_login) (Toy.world [] 1000 Toy.store)).2
            = Toy.session "bob" 4600 1000) as -> by (vm_compute; reflexivity).
    apply toy_round_trips; [cbn; tauto | cbn; tauto | apply toy_universe_ok|].
    vm_compute. split; reflexivity.
  - reflexivity.
  - reflexivity.
  - reflexivity.
  - vm_compute. discriminate.
  - vm_compute. discriminate.
Defined.

Lemma refresh_behind_gate_witness :
  exists (uid : string) (u : User),
    wusers (Toy.world [] 1000 Toy.store) !! uid = Some u
    /\ claimsValue
         (ctxSetUser
            (ctxSetClaims
               (Toy.call ("Bearer " +:+ Toy.session_token jwt.HS512 "bob"))
               (Toy.session "bob" 4600 1000)) (Some Toy.bob))
       ≫= (.!! claimUser) = Some (JStr uid)
    /\ (Refresh Toy.P "login error" Toy.a
          (ctxSetUser
             (ctxSetClaims
                (Toy.call ("Bearer " +:+ Toy.session_token jwt.HS512 "bob"))
                (Toy.session "bob" 4600 1000)) (Some Toy.bob))
          (Toy.world [] 2000 Toy.store)).1
       = (Some {| auth.Expire :=
                    time.Unix (time.Add (wclock (Toy.world [] 2000 Toy.store) 0%nat)
                                 (Timeout (jwt Toy.a)));
                  auth.Token_ :=
                    (jwt.SignedString Toy.P
                       (jwt.NewWithClaims (SigningAlgo (jwt Toy.a))
                          (session_claims Toy.a (UserName u)
                             (Toy.world [] 2000 Toy.store)))
                       (Key (jwt Toy.a))).1 |},
          None).
Proof.
  apply (refresh_behind_gate Toy.P "login error" Toy.a
           (Toy.call ("Bearer " +:+ Toy.session_token jwt.HS512 "bob")) _
           (Toy.world [] 1000 Toy.store)
           (after_validate (Toy.world [] 1000 Toy.store) "bob")
           (Toy.world [] 2000 Toy.store)).
  - vm_compute. reflexivity.
  - reflexivity.
Defined.

(** ** More on the e-mail format check *)

(** The check on an address cut at its first ['@']. *)
Lemma validateEmailFormat_at (LookupIP : string -> list string * option error)
    (account rest : string) :
  strings.ContainsRune account "@" = false ->
  validateEmailFormat LookupIP (account +:+ "@" +:+ rest)
  = match strings.Split rest "@" with
    | host :: _ =>
        if strings.ContainsRune account "+" then
          Returns (Some CatchAllNotAllowed)
        else if strings.HasSuffix account "." then
          Returns (Some TrailingPeriod)
        else
          let '(n, err) := LookupIP host in
          if is_error err || (length n =? 0)%nat then
            Returns (Some (UnresolvableDomain host))
          else Returns None
    | [] => Panics
    end.
Proof.
  intros Hacc. unfold validateEmailFormat. rewrite ContainsRune_app. str_norm.
  cbn [strings.ContainsRune]. rewrite Ascii.eqb_refl, orb_true_r.
  cbn [negb orb]. now rewrite (Split_first_byte "@" account rest Hacc).
Qed.

(** X14. [validateEmailFormat] never panics: its reads of [parts[0]] and
    [parts[1]] are in range for every address, whatever the resolver
    answers. *)
Theorem validateEmailFormat_never_panics
    (LookupIP : string -> list string * option error) (email : string) :
  validateEmailFormat LookupIP email <> Panics.
Proof.
  destruct (strings.ContainsRune email "@") eqn:Hat.
  - apply ContainsRune_true_split in Hat as (account & rest & -> & Hacc).
    change (String "@" rest) with ("@" +:+ rest).
    rewrite (validateEmailFormat_at LookupIP account rest Hacc).
    destruct (strings.Split rest "@") as [|host more] eqn:Hrest;
      [now apply Split_nonempty in Hrest|].
    destruct (strings.ContainsRune account "+"); [discriminate|].
    destruct (strings.HasSuffix account "."); [discriminate|].
    destruct (LookupIP host) as [n err].
    now destruct (is_error err || (length n =? 0)%nat).
  - unfold validateEmailFormat. now rewrite Hat.
Qed.

(** X15. [validateEmailFormat] accepts an address exactly when it has an
    ['@'], the text before the first ['@'] has no ['+'] and does not end with
    ['.'], and the lookup of the text between the first ['@'] and the next
    (or the end) returns at least one address and no error. *)
Theorem validateEmailFormat_accepts_iff
    (LookupIP : string -> list string * option error) (email : string) :
  validateEmailFormat LookupIP email = Returns None
  <-> exists (account rest host : string) (more n : list string),
        email = account +:+ "@" +:+ rest
        /\ ~ strings.Contains account "@"
        /\ ~ strings.Contains account "+"
        /\ ~ strings.EndsWith account "."
        /\ strings.Split rest "@" = host :: more
        /\ LookupIP host = (n, None)
        /\ n <> [].
Proof.
  split.
  - intros Hok. destruct (strings.ContainsRune email "@") eqn:Hat.
    + apply ContainsRune_true_split in Hat as (account & rest & -> & Hacc).
      change (String "@" rest) with ("@" +:+ rest) in *.
      rewrite (validateEmailFormat_at LookupIP account rest Hacc) in Hok.
      destruct (strings.Split rest "@") as [|host more] eqn:Hrest;
        [discriminate|].
      destruct (strings.ContainsRune account "+") eqn:Hplus; [discriminate|].
      destruct (strings.HasSuffix account ".") eqn:Hdot; [discriminate|].
      destruct (LookupIP host) as [n err] eqn:Hlook.
      destruct err as [e|]; [discriminate|]. cbn [is_error orb] in Hok.
      destruct n as [|ip n]; [discriminate|].
      exists account, rest, host, more, (ip :: n).
      split; [reflexivity|].
      split; [intros Hc; apply ContainsRune_Contains in Hc; congruence|].
      split; [intros Hc; apply ContainsRune_Contains in Hc; congruence|].
      split; [intros Hc; apply HasSuffix_spec in Hc; congruence|].
      now repeat split.
    + unfold validateEmailFormat in Hok. now rewrite Hat in Hok.
  - intros (account & rest & host & more & n & -> & Hacc & Hplus & Hdot & Hrest
            & Hlook & Hn).
    rewrite (validateEmailFormat_at LookupIP account rest
               (ContainsRune_not_Contains _ _ Hacc)).
    rewrite Hrest, (ContainsRune_not_Contains _ _ Hplus).
    destruct (strings.HasSuffix account ".") eqn:Hs;
      [now apply HasSuffix_spec in Hs|].
    rewrite Hlook. cbn [is_error orb]. now destruct n.
Qed.

(** ** The exemption list *)

(** X16. A method is exempt exactly when it occurs in the list the
    interceptors were built from; the order of the list and repetitions in it
    make no difference. *)
Theorem exemption_is_membership (exceptions : list string) (method : string) :
  exclude_lookup (make_exclude exceptions) method
  = (bool_decide (method ∈ exceptions), bool_decide (method ∈ exceptions)).
Proof.
  unfold exclude_lookup, make_exclude. rewrite make_exclude_foldl.
  destruct (bool_decide (method ∈ exceptions)); [reflexivity|].
  now rewrite lookup_empty.
Qed.

(** ** The key map of [toUser] *)

Lemma IpfsKeys_from_panics (i : nat) (k v : list string) (m : gmap string string) :
  IpfsKeys_from i k v m = Panics
  <-> (0 < length k /\ length v < i + length k)%nat.
Proof.
  revert i m. induction k as [|key k IH]; intros i m; cbn [IpfsKeys_from length].
  - split; [discriminate | lia].
  - destruct (v !! i) as [name|] eqn:Hv.
    + rewrite IH. apply lookup_lt_Some in Hv. destruct k; cbn [length]; lia.
    + apply lookup_ge_None in Hv. split; [lia | reflexivity].
Qed.

Lemma IpfsKeys_from_lookup (i : nat) (k v : list string)
    (m0 m : gmap string string) (key name : string) :
  IpfsKeys_from i k v m0 = Returns m ->
  m !! key = Some name
  <-> (exists j, k !! j = Some key /\ v !! (i + j)%nat = Some name
                 /\ forall j', (j < j')%nat -> k !! j' <> Some key)
      \/ ((key ∉ k) /\ m0 !! key = Some name).
Proof.
  revert i m0. induction k as [|key0 k IH]; intros i m0; cbn [IpfsKeys_from].
  - intros [= <-]. split.
    + intros H. right. split; [apply not_elem_of_nil | exact H].
    + intros [(j & Hj & _)|[_ H]]; [discriminate | exact H].
  - destruct (v !! i) as [name0|] eqn:Hv; [|discriminate].
    intros Hrun. rewrite (IH _ _ Hrun). split.
    + intros [(j & Hj & Hvj & Hlast)|[Hnin Hm0]].
      * left. exists (S j). split; [exact Hj|].
        split; [now rewrite Nat.add_succ_r|].
        intros [|j'] Hlt; [lia|]. apply Hlast. lia.
      * destruct (decide (key0 = key)) as [->|Hne].
        -- rewrite lookup_insert_eq in Hm0. injection Hm0 as ->.
           left. exists 0%nat. split; [reflexivity|].
           split; [now rewrite Nat.add_0_r|].
           intros [|j'] Hlt; [lia|]. cbn. intros Hj'.
           apply Hnin. eapply list_elem_of_lookup_2. exact Hj'.
        -- rewrite lookup_insert_ne in Hm0 by exact Hne.
           right. split; [|exact Hm0].
           intros Hin. apply elem_of_cons in Hin as [?|?]; congruence.
    + intros [(j & Hj & Hvj & Hlast)|[Hnin Hm0]].
      * destruct j as [|j].
        -- cbn in Hj. injection Hj as ->. right. split.
           ++ intros Hin. apply list_elem_of_lookup in Hin as [j' Hj'].
              apply (Hlast (S j')); [lia | exact Hj'].
           ++ rewrite Nat.add_0_r in Hvj. rewrite lookup_insert_eq. congruence.
        -- left. exists j. split; [exact Hj|].
           split; [now rewrite Nat.add_succ_r in Hvj|].
           intros j' Hlt. apply (Hlast (S j')). lia.
      * right. apply not_elem_of_cons in Hnin as [Hne Hnin].
        split; [exact Hnin|]. rewrite lookup_insert_ne by congruence. exact Hm0.
Qed.

(** X17. Filling the key map panics exactly when there are fewer key names
    than key identifiers; names beyond the identifiers are ignored. *)
Theorem toUser_IpfsKeys_panics_iff (k v : list string) :
  toUser_IpfsKeys k v = Panics <-> (length v < length k)%nat.
Proof.
  unfold toUser_IpfsKeys. rewrite IpfsKeys_from_panics. lia.
Qed.

(** X18. When it does not panic, the key map holds, for every key
    identifier, the name at the index of the identifier's last occurrence,
    and nothing else. *)
Theorem toUser_IpfsKeys_lookup (k v : list string) (m : gmap string string)
    (key name : string) :
  toUser_IpfsKeys k v = Returns m ->
  m !! key = Some name
  <-> exists j, k !! j = Some key /\ v !! j = Some name
                /\ forall j', (j < j')%nat -> k !! j' <> Some key.
Proof.
  unfold toUser_IpfsKeys. intros Hrun.
  rewrite (IpfsKeys_from_lookup 0 k v ∅ m key name Hrun). split.
  - intros [H|[_ H]]; [exact H | now rewrite lookup_empty in H].
  - intros H. now left.
Qed.

Lemma toUser_IpfsKeys_lookup_witness :
  let m : gmap string string :=
    <["k1" := "third"]> (<["k2" := "second"]> (<["k1" := "first"]> ∅)) in
  toUser_IpfsKeys ["k1"; "k2"; "k1"] ["first"; "second"; "third"; "spare"]
  = Returns m
  /\ m !! "k1" = Some "third".
Proof.
  cbv zeta. split; [reflexivity|].
  apply (toUser_IpfsKeys_lookup ["k1"; "k2"; "k1"]
           ["first"; "second"; "third"; "spare"] _ "k1" "third" eq_refl).
  exists 2%nat. split; [reflexivity|]. split; [reflexivity|].
  intros [|[|[|j']]] Hlt; (lia || discriminate).
Defined.

(** ** Expiry, on concrete tokens *)

Lemma expired_token_rejected_by_gate_witness :
  exists err,
    (validate Toy.P Toy.a
       (Toy.call ("Bearer " +:+ Toy.session_token jwt.HS512 "bob"))
       (Toy.world [] 4601 Toy.store)).1 = inr err
    /\ status_Code err = Some codes.Unauthenticated.
Proof.
  apply (expired_token_rejected_by_gate Toy.P Toy.a
           (Toy.call ("Bearer " +:+ Toy.session_token jwt.HS512 "bob"))
           ("Bearer " +:+ Toy.session_token jwt.HS512 "bob") ""
           (Toy.session_token jwt.HS512 "bob") [] 4600
           (Toy.world [] 4601 Toy.store)).
  - reflexivity.
  - vm_compute. reflexivity.
  - vm_compute. reflexivity.
  - discriminate.
  - vm_compute. reflexivity.
Defined.

Lemma expired_token_rejected_at_redemption_witness :
  exists message,
    (VerificationHandler Toy.P Toy.a (Toy.redeem "bob" numeric_challenge_token)
       (Toy.world [] 2001 Toy.store)).1 = ErrBadRequest message
    \/ (VerificationHandler Toy.P Toy.a
          (Toy.redeem "bob" numeric_challenge_token)
          (Toy.world [] 2001 Toy.store)).1 = ErrUnauthorized message.
Proof.
  apply (expired_token_rejected_at_redemption Toy.P Toy.a
           (Toy.redeem "bob" numeric_challenge_token) 2000
           (Toy.world [] 2001 Toy.store)).
  - vm_compute. reflexivity.
  - discriminate.
  - vm_compute. reflexivity.
Defined.

Lemma challenge_token_accepted_by_gate_witness :
  (validate Toy.P Toy.a (Toy.call ("Bearer " +:+ challenge_token))
     (Toy.world [] 1001000 Toy.store)).1
  = inl (ctxSetUser
           (ctxSetClaims (Toy.call ("Bearer " +:+ challenge_token))
              (challenge_claims Toy.P "bob" "abc" (Toy.world [] 1000 Toy.store)))
           (Some Toy.bob)).
Proof.
  refine (challenge_token_accepted_by_gate Toy.P Toy.a "bob" "abc" Toy.bob 512%N
            (Toy.world [] 1000 Toy.store) challenge_token
            (Toy.call ("Bearer " +:+ challenge_token))
            {[ "authorization" := ["Bearer " +:+ challenge_token] ]} []
            (Toy.world [] 1001000 Toy.store) _ _ _ _ _ _ _).
  - discriminate.
  - reflexivity.
  - reflexivity.
  - vm_compute. reflexivity.
  - assert (challenge_claims Toy.P "bob" "abc" (Toy.world [] 1000 Toy.store)
            = Toy.challenge "bob" "abc"
                (JStr (Toy.utc_string (87400 * time.Second))) 1000) as ->
      by (vm_compute; reflexivity).
    apply toy_round_trips; [cbn; tauto | cbn; tauto | apply toy_universe_ok|].
    vm_compute. split; reflexivity.
  - reflexivity.
  - reflexivity.
Defined.
